(** * The listing parser and statistics aggregator of [tor_data_explorer.py]

    A shallow embedding of [FileAnalyzer.parse_file_size],
    [FileAnalyzer.process_file_listing] and [DataVisualizer.analyze_patterns],
    together with the Python builtins they call ([str.strip], [str.lstrip],
    [str.splitlines], [str.lower], [str.join], [re.match], [float], [int],
    [pathlib.Path.suffix]).

    Conventions of the model.
    - A Python [str] is a [string]; each [ascii] stands for the code point of
      the same number, so the model covers the code points 0..255.  The
      character classes below are Python's classes restricted to that range.
    - A Python [int] is a [Z]; a Python [float] is an IEEE 754 binary64 number,
      a [spec_float] with precision 53 and maximal exponent 1024, and the
      operations on floats are those of the Standard Library's [SpecFloat]:
      conversions and products round to nearest, ties to even.
    - A call that may raise returns a [result]: the value, or the exception.
    - A [dict] keyed by strings is a [gmap string _]; the two dicts with a
      fixed set of keys that [analyze_patterns] builds are records.
    - [pathlib] is the POSIX flavour, with the [suffix] of Python 3 before
      3.14: a name that ends with a dot has no suffix. *)

From Stdlib Require Import ZArith QArith Qround Qpower Qfield Lia Bool.
From Stdlib Require Import Strings.Ascii Strings.String.
From Stdlib Require Import Floats.SpecFloat.
From Stdlib Require Import Numbers.DecimalString Numbers.DecimalN.
From stdpp Require Import base list strings gmap fin_maps.

Local Open Scope string_scope.
Local Open Scope Z_scope.

(** ** Exceptions *)

Inductive exn : Type :=
| ValueError
| OverflowError
| TypeError
| AttributeError.

Inductive result (A : Type) : Type :=
| Returned (a : A)
| Raised (e : exn).

Arguments Returned {A} a.
Arguments Raised {A} e.

Definition bind {A B : Type} (r : result A) (f : A -> result B) : result B :=
  match r with
  | Returned a => f a
  | Raised e => Raised e
  end.

(** ** Python strings *)

Module Str.

Definition code (c : ascii) : N := N_of_ascii c.

Definition in_range (lo hi : N) (c : ascii) : bool :=
  ((lo <=? code c) && (code c <=? hi))%N.

(** [str.isspace] on one character, which is also what [strip], [lstrip]
    and the regular expression class [\s] use: TAB..CR, FS..US, space,
    NEL and the no-break space. *)
Definition isspace (c : ascii) : bool :=
  in_range 9 13 c || in_range 28 32 c || in_range 133 133 c
  || in_range 160 160 c.

(** The class [\d]: the decimal digits. *)
Definition isdecimal (c : ascii) : bool := in_range 48 57 c.

(** Line boundaries of [str.splitlines]: LF, VT, FF, CR, FS, GS, RS, NEL. *)
Definition is_linebreak (c : ascii) : bool :=
  in_range 10 13 c || in_range 28 30 c || in_range 133 133 c.

Definition LF : ascii := ascii_of_N 10.
Definition CR : ascii := ascii_of_N 13.

Fixpoint lstrip (s : string) : string :=
  match s with
  | String c s' => if isspace c then lstrip s' else s
  | EmptyString => EmptyString
  end.

Fixpoint rstrip (s : string) : string :=
  match s with
  | String c s' =>
      match rstrip s' with
      | EmptyString => if isspace c then EmptyString else String c EmptyString
      | r => String c r
      end
  | EmptyString => EmptyString
  end.

Definition strip (s : string) : string := rstrip (lstrip s).

(** [str.splitlines()] without [keepends]: CR LF counts as one boundary
    and a final boundary opens no further line. *)
Fixpoint splitlines (s : string) : list string :=
  match s with
  | EmptyString => []
  | String c s' =>
      if is_linebreak c then
        match s' with
        | String c' s'' =>
            if Ascii.eqb c CR && Ascii.eqb c' LF
            then EmptyString :: splitlines s''
            else EmptyString :: splitlines s'
        | EmptyString => EmptyString :: splitlines s'
        end
      else
        match splitlines s' with
        | [] => [String c EmptyString]
        | l :: ls => String c l :: ls
        end
  end.

(** [str.lower] on one character: A..Z and the capital letters of the
    Latin-1 block (0xC0..0xDE without the multiplication sign 0xD7). *)
Definition lower_char (c : ascii) : ascii :=
  if in_range 65 90 c || (in_range 192 222 c && negb (in_range 215 215 c))
  then ascii_of_N (code c + 32)
  else c.

Fixpoint lower (s : string) : string :=
  match s with
  | String c s' => String (lower_char c) (lower s')
  | EmptyString => EmptyString
  end.

(** [sep.join(parts)] *)
Fixpoint join (sep : string) (parts : list string) : string :=
  match parts with
  | [] => EmptyString
  | [p] => p
  | p :: ps => p ++ sep ++ join sep ps
  end.

(** [s.rfind(c)]: the index of the last occurrence of [c], [-1] if none. *)
Fixpoint rfind (c : ascii) (s : string) : Z :=
  match s with
  | EmptyString => -1
  | String a s' =>
      let i := rfind c s' in
      if 0 <=? i then i + 1 else if Ascii.eqb a c then 0 else -1
  end.

(** [s[i:]] for [0 <= i] *)
Fixpoint drop (i : nat) (s : string) : string :=
  match i, s with
  | O, _ => s
  | S i', String _ s' => drop i' s'
  | S _, EmptyString => EmptyString
  end.

(** [s[:n]] for [0 <= n] *)
Fixpoint take (n : nat) (s : string) : string :=
  match n, s with
  | S n', String c s' => String c (take n' s')
  | _, _ => EmptyString
  end.

(** [s.split(sep)] for a one-character separator. *)
Fixpoint split (sep : ascii) (s : string) : list string :=
  match s with
  | EmptyString => [EmptyString]
  | String c s' =>
      if Ascii.eqb c sep then EmptyString :: split sep s'
      else
        match split sep s' with
        | [] => [String c EmptyString]
        | p :: ps => String c p :: ps
        end
  end.

End Str.

(** ** Regular expressions ([re.match])

    The fragment of Python's pattern syntax that the program uses, matched
    the way the [re] module does it: by backtracking, greedy operators
    trying the longest repetition first and lazy ones the shortest.  The
    repetition operators are applied to one-character items, which is all
    the two patterns of the program need. *)

Module Re.

Inductive regex : Type :=
| Bos                              (* ^  : the start of the string *)
| Eos                              (* $  : the end, or before a final LF *)
| One (cls : ascii -> bool)        (* one character of a class *)
| Star (cls : ascii -> bool)       (* x*  *)
| Plus (cls : ascii -> bool)       (* x+  *)
| PlusLazy (cls : ascii -> bool)   (* x+? *)
| Opt (r : regex)                  (* r?  *)
| Group (i : nat) (r : regex)      (* (r), the group number i *)
| Seq (r1 r2 : regex).

(** Captured groups, the most recent binding first. *)
Definition captures : Type := list (nat * string).

Record state : Type := State { pos : nat; rest : string; caps : captures }.

Section Loops.
Context {R : Type} (cls : ascii -> bool) (k : nat -> string -> option R).

Fixpoint star_greedy (p : nat) (s : string) : option R :=
  match s with
  | String c s' =>
      if cls c then
        match star_greedy (S p) s' with
        | Some r => Some r
        | None => k p s
        end
      else k p s
  | EmptyString => k p s
  end.

Definition plus_greedy (p : nat) (s : string) : option R :=
  match s with
  | String c s' => if cls c then star_greedy (S p) s' else None
  | EmptyString => None
  end.

Fixpoint plus_lazy (p : nat) (s : string) : option R :=
  match s with
  | String c s' =>
      if cls c then
        match k (S p) s' with
        | Some r => Some r
        | None => plus_lazy (S p) s'
        end
      else None
  | EmptyString => None
  end.
End Loops.

(** [run r k st]: match [r] at [st] and hand the state after it to the
    continuation [k]; when [k] fails, try the next way to match [r]. *)
Fixpoint run (r : regex) (k : state -> option captures) (st : state)
  : option captures :=
  match r with
  | Bos => if Nat.eqb (pos st) 0 then k st else None
  | Eos =>
      match rest st with
      | EmptyString => k st
      | String c EmptyString => if Ascii.eqb c Str.LF then k st else None
      | _ => None
      end
  | One cls =>
      match rest st with
      | String c s' =>
          if cls c then k (State (S (pos st)) s' (caps st)) else None
      | EmptyString => None
      end
  | Star cls =>
      star_greedy cls (fun p s => k (State p s (caps st))) (pos st) (rest st)
  | Plus cls =>
      plus_greedy cls (fun p s => k (State p s (caps st))) (pos st) (rest st)
  | PlusLazy cls =>
      plus_lazy cls (fun p s => k (State p s (caps st))) (pos st) (rest st)
  | Opt r' =>
      match run r' k st with
      | Some m => Some m
      | None => k st
      end
  | Group i r' =>
      run r'
        (fun st' =>
           k (State (pos st') (rest st')
                ((i, Str.take (pos st' - pos st) (rest st)) :: caps st')))
        st
  | Seq r1 r2 => run r1 (run r2 k) st
  end.

(** [re.match(r, s)]: a match anchored at the start of [s]. *)
Definition match_ (r : regex) (s : string) : option captures :=
  run r (fun st => Some (caps st)) (State 0 s []).

(** [m.group(i)], [None] for a group that took no part in the match. *)
Fixpoint group (i : nat) (m : captures) : option string :=
  match m with
  | [] => None
  | (j, s) :: m' => if Nat.eqb i j then Some s else group i m'
  end.

(** Character classes. *)
Definition lit (a : ascii) : ascii -> bool := fun c => Ascii.eqb c a.
Definition dot : ascii -> bool := fun c => negb (Ascii.eqb c Str.LF).
Definition space : ascii -> bool := Str.isspace.
Definition digit_or_dot : ascii -> bool :=
  fun c => Str.isdecimal c || Ascii.eqb c ".".
Definition unit_letter : ascii -> bool :=
  fun c => Ascii.eqb c "K" || Ascii.eqb c "M" || Ascii.eqb c "G"
           || Ascii.eqb c "T".

End Re.

(** ** Python floats ([float], [*], [int]) *)

Module Float.

Definition prec : Z := 53.
Definition emax : Z := 1024.

(** The binary64 number nearest to [d / 10^k] (ties to even), for
    [0 <= d]: the quotient is computed with enough bits and then rounded. *)
Definition of_decimal (d : Z) (k : nat) : spec_float :=
  match d with
  | Z0 => S754_zero false
  | Zpos _ =>
      let '(q, e, l) := SFdiv_core_binary prec emax d 0 (10 ^ Z.of_nat k) 0 in
      binary_round_aux prec emax false q e l
  | Zneg _ => S754_nan
  end.

Definition digit_value (c : ascii) : Z := Z.of_N (Str.code c) - 48.

(** Read a run of decimal digits: the number read so far, how many digits
    were read, and what follows the run. *)
Fixpoint read_digits (acc : Z) (n : nat) (s : string) : Z * nat * string :=
  match s with
  | String c s' =>
      if Str.isdecimal c then read_digits (10 * acc + digit_value c) (S n) s'
      else (acc, n, s)
  | EmptyString => (acc, n, s)
  end.

(** [float(s)] for a string of digits and dots, the only strings the
    program passes to [float]: digits with at most one decimal point and
    at least one digit; everything else of that alphabet is a
    [ValueError].  (Signs, exponents, underscores, [inf] and [nan] are not
    modelled: no string with such a character reaches this call.) *)
Definition of_string (s : string) : result spec_float :=
  let '(ip, ni, r) := read_digits 0 0 s in
  match r with
  | EmptyString =>
      if Nat.eqb ni 0 then Raised ValueError else Returned (of_decimal ip 0)
  | String c r' =>
      if Ascii.eqb c "." then
        let '(d, nf, r'') := read_digits ip 0 r' in
        match r'' with
        | EmptyString =>
            if Nat.eqb (ni + nf) 0 then Raised ValueError
            else Returned (of_decimal d nf)
        | String _ _ => Raised ValueError
        end
      else Raised ValueError
  end.

(** [float(n)] for an integer [n]. *)
Definition of_int (n : Z) : spec_float := binary_normalize prec emax n 0 false.

Definition mul (x y : spec_float) : spec_float := SFmul prec emax x y.

(** [int(x)]: truncation towards zero; infinities and NaN raise. *)
Definition to_int (x : spec_float) : result Z :=
  match x with
  | S754_zero _ => Returned 0
  | S754_finite s m e => Returned (cond_Zopp s (Z.shiftl (Zpos m) e))
  | S754_infinity _ => Raised OverflowError
  | S754_nan => Raised ValueError
  end.

End Float.

(** ** [pathlib.Path(name).suffix], POSIX flavour *)

Module Path.

(** The components of a path: the pieces between slashes that are neither
    empty nor a single dot. *)
Definition parts (p : string) : list string :=
  filter (fun x => x <> EmptyString /\ x <> ".") (Str.split "/" p).

(** [Path(p).name]: the final component, empty when there is none. *)
Definition name (p : string) : string := List.last (parts p) EmptyString.

(** [Path(p).suffix]: from the last dot of the name on, unless that dot
    is the first or the last character of the name. *)
Definition suffix (p : string) : string :=
  let n := name p in
  let i := Str.rfind "." n in
  if (0 <? i) && (i <? Z.of_nat (String.length n) - 1)
  then Str.drop (Z.to_nat i) n
  else EmptyString.

End Path.
(** ** The program *)

(** [@dataclass class FileEntry] *)
Record FileEntry : Type := mkFileEntry {
  path : string;
  size : Z;
  extension : string
}.

Module FileAnalyzer.

Definition SIZE_MULTIPLIERS : gmap string Z :=
  <["K" := 1024]> (<["M" := 1024 ^ 2]> (<["G" := 1024 ^ 3]>
    (<["T" := 1024 ^ 4]> ∅))).

(** [r'^([\d.]+)([KMGT])?B?$'] *)
Definition size_re : Re.regex :=
  Re.Seq Re.Bos
    (Re.Seq (Re.Group 1 (Re.Plus Re.digit_or_dot))
       (Re.Seq (Re.Opt (Re.Group 2 (Re.One Re.unit_letter)))
          (Re.Seq (Re.Opt (Re.One (Re.lit "B"))) Re.Eos))).

(** [bytes_value *= SIZE_MULTIPLIERS.get(unit, 1)] under [if unit:], which
    holds for a group that took part in the match and is not empty. *)
Definition scale (bytes_value : spec_float) (unit : option string)
  : spec_float :=
  match unit with
  | Some (String _ _ as u) =>
      Float.mul bytes_value
        (Float.of_int (default 1 (SIZE_MULTIPLIERS !! u)))
  | _ => bytes_value
  end.

(** [float(value)]; [float(None)] would be a [TypeError]. *)
Definition float_of_group (value : option string) : result spec_float :=
  match value with
  | Some v => Float.of_string v
  | None => Raised TypeError
  end.

Definition parse_file_size (size_str : string) : result Z :=
  match Re.match_ size_re (Str.strip size_str) with
  | None => Returned 0
  | Some m =>
      let value := Re.group 1 m in
      let unit := Re.group 2 m in
      bind (float_of_group value) (fun bytes_value =>
      Float.to_int (scale bytes_value unit))
  end.

(** [r'.*\[(.+?)\]\s+(.+)$'] *)
Definition line_re : Re.regex :=
  Re.Seq (Re.Star Re.dot)
    (Re.Seq (Re.One (Re.lit "["))
       (Re.Seq (Re.Group 1 (Re.PlusLazy Re.dot))
          (Re.Seq (Re.One (Re.lit "]"))
             (Re.Seq (Re.Plus Re.space)
                (Re.Seq (Re.Group 2 (Re.Plus Re.dot)) Re.Eos))))).

(** [(len(line) - len(line.lstrip())) // 2] *)
Definition indent_level (line : string) : Z :=
  (Z.of_nat (String.length line)
   - Z.of_nat (String.length (Str.lstrip line))) / 2.

(** [while len(current_path) > indent_level: current_path.pop()];
    [length current_path] rounds are enough, one for each pop. *)
Fixpoint pop_while (fuel : nat) (current_path : list string)
  (indent_level : Z) : list string :=
  match fuel with
  | O => current_path
  | S fuel' =>
      if indent_level <? Z.of_nat (length current_path)
      then pop_while fuel' (removelast current_path) indent_level
      else current_path
  end.

(** The slice [l[:i]]; a negative [i] counts from the end. *)
Definition slice_to {A : Type} (l : list A) (i : Z) : list A :=
  if i <? 0 then take (length l - Z.to_nat (- i)) l
  else take (Z.to_nat i) l.

(** The loop state: the entries emitted so far and the path stack. *)
Definition loop_state : Type := list FileEntry * list string.

(** One round of the [for line in content.splitlines()] loop. *)
Definition process_line (st : loop_state) (line : string)
  : result loop_state :=
  let '(entries, current_path) := st in
  match Str.strip line with
  | EmptyString => Returned (entries, current_path)
  | String _ _ as stripped =>
      let indent_level := indent_level line in
      let current_path :=
        pop_while (length current_path) current_path indent_level in
      match Re.match_ line_re stripped with
      | None => Returned (entries, current_path)
      | Some m =>
          match Re.group 1 m, Re.group 2 m with
          | Some size_str, Some name =>
              bind (parse_file_size size_str) (fun size =>
              let current_path :=
                (slice_to current_path indent_level ++ [name])%list in
              let full_path := Str.join "/" current_path in
              let extension := Str.lower (Path.suffix name) in
              Returned
                ((entries ++ [mkFileEntry full_path size extension])%list,
                 current_path))
          | _, _ => Raised AttributeError
          end
      end
  end.

Fixpoint process_lines (st : loop_state) (lines : list string)
  : result loop_state :=
  match lines with
  | [] => Returned st
  | line :: lines' =>
      bind (process_line st line) (fun st' => process_lines st' lines')
  end.

Definition process_file_listing (content : string)
  : result (list FileEntry) :=
  bind (process_lines ([], []) (Str.splitlines content)) (fun st =>
  Returned (fst st)).

End FileAnalyzer.

(** [analysis['size_distribution']]: a dict with the three fixed keys. *)
Record SizeDistribution : Type := mkSizeDistribution {
  small : Z;
  medium : Z;
  large : Z
}.

(** The dict that [analyze_patterns] returns, with its four fixed keys. *)
Record AnalysisResult : Type := mkAnalysisResult {
  total_files : Z;
  total_size : Z;
  extension_stats : gmap string Z;
  size_distribution : SizeDistribution
}.

Module DataVisualizer.

(** [sum(entry.size for entry in entries)] *)
Definition sum_sizes (entries : list FileEntry) : Z :=
  fold_left (fun acc entry => acc + size entry) entries 0.

(** [if ext not in stats: stats[ext] = 0] and then [stats[ext] += 1] *)
Definition count_extension (stats : gmap string Z) (ext : string)
  : gmap string Z :=
  let stats :=
    match stats !! ext with
    | None => <[ext := 0]> stats
    | Some _ => stats
    end in
  <[ext := default 0 (stats !! ext) + 1]> stats.

Definition count_size (d : SizeDistribution) (sz : Z) : SizeDistribution :=
  if sz <? 1024 ^ 2 then
    mkSizeDistribution (small d + 1) (medium d) (large d)
  else if sz <? 100 * 1024 ^ 2 then
    mkSizeDistribution (small d) (medium d + 1) (large d)
  else
    mkSizeDistribution (small d) (medium d) (large d + 1).

(** The body of [for entry in entries]. *)
Definition analyze_entry (analysis : AnalysisResult) (entry : FileEntry)
  : AnalysisResult :=
  let stats :=
    match extension entry with
    | EmptyString => extension_stats analysis
    | String _ _ as ext => count_extension (extension_stats analysis) ext
    end in
  mkAnalysisResult (total_files analysis) (total_size analysis) stats
    (count_size (size_distribution analysis) (size entry)).

Definition analyze_patterns (entries : list FileEntry) : AnalysisResult :=
  let analysis :=
    mkAnalysisResult (Z.of_nat (length entries)) (sum_sizes entries) ∅
      (mkSizeDistribution 0 0 0) in
  fold_left analyze_entry entries analysis.

(** The loop of [generate_extension_wordcloud] that counts the extensions:
    [extension_counts[entry.extension] =
     extension_counts.get(entry.extension, 0) + 1] under
    [if entry.extension:]. *)
Definition count_frequency (extension_counts : gmap string Z)
  (entry : FileEntry) : gmap string Z :=
  match extension entry with
  | EmptyString => extension_counts
  | String _ _ as ext =>
      <[ext := default 0 (extension_counts !! ext) + 1]> extension_counts
  end.

(** The frequencies that [generate_extension_wordcloud] hands to
    [WordCloud.generate_from_frequencies]; the rendering and the saving of
    the image are calls into the plotting libraries and are not modelled. *)
Definition extension_counts (entries : list FileEntry) : gmap string Z :=
  fold_left count_frequency entries ∅.

End DataVisualizer.

Import FileAnalyzer DataVisualizer.

(** ** Notions used by the statements *)

(** [sum(d.values())] *)
Definition sum_values (d : gmap string Z) : Z :=
  map_fold (fun _ v acc => v + acc) 0 d.

(** [sum(size_distribution.values())] *)
Definition bucket_total (d : SizeDistribution) : Z :=
  small d + medium d + large d.

Definition has_extension (e : FileEntry) : bool :=
  negb (String.eqb (extension e) EmptyString).

Definition is_small (e : FileEntry) : bool := size e <? 2 ^ 20.
Definition is_medium (e : FileEntry) : bool :=
  (2 ^ 20 <=? size e) && (size e <? 100 * 2 ^ 20).
Definition is_large (e : FileEntry) : bool := 100 * 2 ^ 20 <=? size e.

(** The entry has the extension [ext]. *)
Definition has_this_extension (ext : string) (e : FileEntry) : bool :=
  String.eqb (extension e) ext.

(** How many elements of a list pass a test. *)
Definition count {A : Type} (p : A -> bool) (l : list A) : Z :=
  Z.of_nat (length (List.filter p l)).

(** A text made of the given lines, each ended by a line feed. *)
Definition unlines (lines : list string) : string :=
  String.concat EmptyString
    (List.map (fun l => l ++ String Str.LF EmptyString) lines).

(** The listing of the specification's example, with the root at column 0. *)
Definition example_listing : string :=
  unlines [ "[ 10M] root";
            "  [ 1M] a.txt";
            "  [ 2M] sub";
            "    [500K] b.log" ].

(** The line's trimmed content matches the listing pattern. *)
Definition line_matches (line : string) : bool :=
  match Re.match_ line_re (Str.strip line) with
  | Some _ => true
  | None => false
  end.

(** The size token of a line whose trimmed content matches the pattern. *)
Definition size_token (line : string) : option string :=
  match Re.match_ line_re (Str.strip line) with
  | Some m => Re.group 1 m
  | None => None
  end.

(** Entry [e] is what a matching [line] gives: the size and the name come
    from the two groups of the match, and the name is the last segment of
    the path. *)
Definition emitted_from (e : FileEntry) (line : string) : Prop :=
  exists m size_str name,
    Re.match_ line_re (Str.strip line) = Some m
    /\ Re.group 1 m = Some size_str
    /\ Re.group 2 m = Some name
    /\ parse_file_size size_str = Returned (size e)
    /\ extension e = Str.lower (Path.suffix name)
    /\ exists dirs, path e = Str.join "/" (dirs ++ [name])%list.

(** [c in s] *)
Fixpoint contains (c : ascii) (s : string) : bool :=
  match s with
  | String a s' => Ascii.eqb a c || contains c s'
  | EmptyString => false
  end.

(** The name starts with a dot and has no other dot, as in [.gitignore]. *)
Definition leading_dot_only (name : string) : Prop :=
  exists rest, name = String "." rest /\ contains "." rest = false.

(** The only dot of the name is its last character, as in [file.]. *)
Definition trailing_dot_only (name : string) : Prop :=
  exists base, name = base ++ "." /\ contains "." base = false.

(** The entries of the example. *)
Definition example_entries : list FileEntry :=
  [ mkFileEntry "root" 10485760 "";
    mkFileEntry "root/a.txt" 1048576 ".txt";
    mkFileEntry "root/sub" 2097152 "";
    mkFileEntry "root/sub/b.log" 512000 ".log" ].

(** *** Size tokens *)

(** The longest prefix of characters of a class, and what follows it. *)
Fixpoint span (cls : ascii -> bool) (s : string) : string * string :=
  match s with
  | String c s' =>
      if cls c then let '(v, r) := span cls s' in (String c v, r)
      else (EmptyString, s)
  | EmptyString => (EmptyString, EmptyString)
  end.

(** Where [$] matches: at the end, or before a final line feed. *)
Definition at_end (r : string) : bool :=
  match r with
  | EmptyString => true
  | String c EmptyString => Ascii.eqb c Str.LF
  | _ => false
  end.

Definition skip_B (r : string) : string :=
  match r with
  | String c r' => if Ascii.eqb c "B" then r' else r
  | EmptyString => r
  end.

(** What may follow the number of a size token: an optional unit letter,
    an optional [B], the end.  The result is the unit letter, if any. *)
Definition unit_and_end (r : string) : option (option ascii) :=
  match r with
  | String c r' =>
      if Re.unit_letter c
      then (if at_end (skip_B r') then Some (Some c) else None)
      else (if at_end (skip_B r) then Some None else None)
  | EmptyString => Some None
  end.

(** The pattern of [parse_file_size] read off directly: a run of digits and
    dots that is not empty, a unit letter or none, a [B] or none, the end.
    The result is the run and the unit letter. *)
Definition size_fields (s : string) : option (string * option ascii) :=
  let '(v, r) := span Re.digit_or_dot s in
  match v with
  | EmptyString => None
  | String _ _ =>
      match unit_and_end r with
      | Some u => Some (v, u)
      | None => None
      end
  end.

(** Following the specification's words: the recognized format is one or
    more digits, optionally a decimal point and more digits, optionally one
    unit letter of K, M, G, T, optionally a literal B. *)

(** The optional part [a decimal point and more digits], and what follows. *)
Definition recognized_fraction (r : string) : string * string :=
  match r with
  | String c r' =>
      if Ascii.eqb c "." then
        match span Str.isdecimal r' with
        | (String _ _ as f, r'') => (String c f, r'')
        | (EmptyString, _) => (EmptyString, r)
        end
      else (EmptyString, r)
  | EmptyString => (EmptyString, r)
  end.

(** The optional unit letter and the optional [B], with nothing after. *)
Definition recognized_tail (r : string) : option (option ascii) :=
  match r with
  | EmptyString => Some None
  | String c r' =>
      if Re.unit_letter c then
        match r' with
        | EmptyString => Some (Some c)
        | String b EmptyString => if Ascii.eqb b "B" then Some (Some c) else None
        | _ => None
        end
      else
        match r' with
        | EmptyString => if Ascii.eqb c "B" then Some None else None
        | _ => None
        end
  end.

(** The number and the unit letter of a token in the recognized format. *)
Definition recognized_fields (s : string) : option (string * option ascii) :=
  let '(ip, r) := span Str.isdecimal s in
  match ip with
  | EmptyString => None
  | String _ _ =>
      let '(fp, r) := recognized_fraction r in
      match recognized_tail r with
      | Some u => Some (ip ++ fp, u)
      | None => None
      end
  end.

(** [c * n]: the character [c], [n] times. *)
Fixpoint replicate_char (n : nat) (c : ascii) : string :=
  match n with
  | O => EmptyString
  | S n' => String c (replicate_char n' c)
  end.

(** Every character of the string is of the class. *)
Fixpoint all_chars (cls : ascii -> bool) (s : string) : bool :=
  match s with
  | String c s' => cls c && all_chars cls s'
  | EmptyString => true
  end.

(** [str(n)] for an integer [n] that is not negative: its decimal digits. *)
Definition decimal (n : N) : string :=
  NilZero.string_of_uint (N.to_uint n).

(** The unit letter of a token, as text. *)
Definition unit_string (u : option ascii) : string :=
  match u with
  | Some c => String c EmptyString
  | None => EmptyString
  end.

Definition not_space (c : ascii) : bool := negb (Str.isspace c).

(** A listing line: indentation, any text, then the size token in square
    brackets, a gap and the name. *)
Definition listing_line (indent before size_str gap name : string) : string :=
  indent ++ before ++ String "[" (size_str ++ String "]" (gap ++ name)).

Definition is_open (c : ascii) : bool := Ascii.eqb c "[".
Definition is_close (c : ascii) : bool := Ascii.eqb c "]".

(** The characters of a size token, of a gap and of a name in a listing
    line; none of them is a line feed. *)
Definition size_char (c : ascii) : bool :=
  Re.dot c && negb (is_open c) && negb (is_close c).
Definition gap_char (c : ascii) : bool := Re.space c && Re.dot c.
Definition name_char (c : ascii) : bool := Re.dot c && negb (is_open c).

(** A text that is not empty and has no whitespace at either end. *)
Definition is_trimmed (s : string) : bool :=
  match s with
  | String c _ => negb (Str.isspace c) && String.eqb (Str.rstrip s) s
  | EmptyString => false
  end.

(** A name as a listing shows it: trimmed, on one line, without an
    opening bracket. *)
Definition listed_name (name : string) : bool :=
  is_trimmed name
  && all_chars (fun c => negb (Str.is_linebreak c) && negb (is_open c)) name.

Definition unit_ok (u : option ascii) : bool :=
  match u with
  | Some c => Re.unit_letter c
  | None => true
  end.

(** The shape of an extension: empty, or a dot and then at least one
    character, none of them a dot or a slash. *)
Definition extension_shape (ext : string) : Prop :=
  ext = EmptyString
  \/ exists rest,
       ext = String "." rest /\ rest <> EmptyString
       /\ contains "." rest = false /\ contains "/" rest = false.

(** A line of whitespace only, or an empty line. *)
Definition is_blank (line : string) : bool :=
  String.eqb (Str.strip line) EmptyString.

(** How many characters of the string are of the class. *)
Fixpoint count_class (cls : ascii -> bool) (s : string) : nat :=
  match s with
  | String c s' => ((if cls c then 1 else 0) + count_class cls s')%nat
  | EmptyString => O
  end.

Definition is_dot (c : ascii) : bool := Ascii.eqb c ".".

(** The string does not start with a character of the class. *)
Definition stops (cls : ascii -> bool) (s : string) : Prop :=
  match s with
  | String c _ => cls c = false
  | EmptyString => True
  end.

(** What follows the first group: [([KMGT])?B?$]. *)
Definition size_tail : Re.regex :=
  Re.Seq (Re.Opt (Re.Group 2 (Re.One Re.unit_letter)))
    (Re.Seq (Re.Opt (Re.One (Re.lit "B"))) Re.Eos).

(** The groups of a match of the size pattern. *)
Definition size_captures (v : string) (u : option ascii) : Re.captures :=
  match u with
  | Some c => [(2%nat, String c EmptyString); (1%nat, v)]
  | None => [(1%nat, v)]
  end.

(** The second group as [parse_file_size] sees it. *)
Definition unit_group (u : option ascii) : option string :=
  match u with
  | Some c => Some (String c EmptyString)
  | None => None
  end.

(** A binary64 number that is not negative: zero, a finite number in
    canonical form, or plus infinity. *)
Definition valid_nonneg (x : spec_float) : Prop :=
  match x with
  | S754_zero false | S754_infinity false => True
  | S754_finite false m e => bounded 53 1024 m e = true
  | _ => False
  end.

(** The factor that [parse_file_size] applies for a unit letter, or for
    none: [SIZE_MULTIPLIERS.get(unit, 1)]. *)
Definition multiplier (u : option ascii) : Z :=
  match unit_group u with
  | Some k => default 1 (SIZE_MULTIPLIERS !! k)
  | None => 1
  end.

(** The rational number that a finite binary64 number stands for. *)
Definition F2Q (x : spec_float) : Q :=
  match x with
  | S754_finite s m e => (inject_Z (cond_Zopp s (Z.pos m)) * (2 # 1) ^ e)%Q
  | _ => 0%Q
  end.

(** The exponent of a finite number is at most [b]; an infinity stands for
    an exponent beyond those of the format. *)
Definition exponent_below (b : Z) (x : spec_float) : Prop :=
  match x with
  | S754_finite _ _ e => e <= b
  | S754_infinity _ => 1024 - 53 < b
  | _ => True
  end.

Definition is_finite (x : spec_float) : bool :=
  match x with
  | S754_zero _ | S754_finite _ _ _ => true
  | S754_infinity _ | S754_nan => false
  end.

(** A directory tree: the name of an entry, its size as a whole number
    with a unit letter or none, and the entries below it. *)
#[warnings="-register-all"] Inductive tree : Type :=
| Node (name : string) (number : N) (unit : option ascii)
    (children : list tree).

(** The listing of a tree: one line for each entry, two spaces of
    indentation for each level, the entries below an entry after it. *)
Fixpoint listing_lines (depth : nat) (t : tree) : list string :=
  match t with
  | Node name number unit children =>
      listing_line (replicate_char (2 * depth) " ") EmptyString
        (decimal number ++ unit_string unit) " " name
      :: List.flat_map (listing_lines (S depth)) children
  end.

(** The entries of a tree below the directories [dirs]: full paths and
    sizes in bytes, in the order of the listing. *)
Fixpoint tree_entries (dirs : list string) (t : tree) : list FileEntry :=
  match t with
  | Node name number unit children =>
      let here := (dirs ++ [name])%list in
      mkFileEntry (Str.join "/" here) (Z.of_N number * multiplier unit)
        (Str.lower (Path.suffix name))
      :: List.flat_map (tree_entries here) children
  end.

Fixpoint well_formed (t : tree) : bool :=
  match t with
  | Node name number unit children =>
      listed_name name && (number <? 2 ^ 53)%N && unit_ok unit
      && List.forallb well_formed children
  end.

(** ** Strings *)

Section Strings.

Lemma append_cons c (a b : string) : String c a ++ b = String c (a ++ b).
Proof. reflexivity. Qed.

Lemma append_nil_l (a : string) : EmptyString ++ a = a.
Proof. reflexivity. Qed.

Lemma append_nil_r (a : string) : a ++ EmptyString = a.
Proof.
  induction a as [|c a IH]; [reflexivity|].
  rewrite append_cons, IH. reflexivity.
Qed.

Lemma append_assoc (a b c : string) : (a ++ b) ++ c = a ++ (b ++ c).
Proof.
  induction a as [|x a IH]; [reflexivity|].
  rewrite !append_cons, IH. reflexivity.
Qed.

Lemma length_append (a b : string) :
  String.length (a ++ b) = (String.length a + String.length b)%nat.
Proof.
  induction a as [|x a IH]; [reflexivity|].
  rewrite append_cons. simpl. rewrite IH. reflexivity.
Qed.

End Strings.

(** ** The statistics aggregator *)

Section Aggregator.

Implicit Types (entries : list FileEntry) (a : AnalysisResult).

Lemma count_cons {A} (p : A -> bool) x (l : list A) :
  count p (x :: l) = (if p x then 1 else 0) + count p l.
Proof. unfold count. simpl. destruct (p x); simpl; lia. Qed.

Lemma sum_values_insert_fresh (d : gmap string Z) k v :
  d !! k = None -> sum_values (<[k := v]> d) = v + sum_values d.
Proof.
  intros Hk. unfold sum_values.
  rewrite map_fold_insert_L; [reflexivity | intros; lia | exact Hk].
Qed.

Lemma sum_values_update (d : gmap string Z) k v w :
  d !! k = Some v -> sum_values (<[k := w]> d) = sum_values d + (w - v).
Proof.
  intros Hk.
  rewrite <- (insert_delete_eq d k w).
  rewrite <- (insert_delete_id d k v Hk) at 2.
  rewrite !sum_values_insert_fresh by apply lookup_delete_eq. lia.
Qed.

Lemma sum_values_count_extension (d : gmap string Z) ext :
  sum_values (count_extension d ext) = sum_values d + 1.
Proof.
  unfold count_extension. destruct (d !! ext) as [v|] eqn:Hk.
  - rewrite Hk. simpl. rewrite (sum_values_update d ext v) by exact Hk. lia.
  - rewrite lookup_insert_eq. simpl. rewrite insert_insert_eq.
    rewrite sum_values_insert_fresh by exact Hk. lia.
Qed.

Lemma bucket_total_count_size d sz :
  bucket_total (count_size d sz) = bucket_total d + 1.
Proof.
  unfold count_size, bucket_total.
  destruct (sz <? 1024 ^ 2); [|destruct (sz <? 100 * 1024 ^ 2)]; simpl; lia.
Qed.

(** What the loop of [analyze_patterns] maintains, from any start. *)
Lemma analyze_loop_invariant entries a :
  let r := fold_left analyze_entry entries a in
  total_files r = total_files a
  /\ total_size r = total_size a
  /\ bucket_total (size_distribution r)
     = bucket_total (size_distribution a) + Z.of_nat (length entries)
  /\ sum_values (extension_stats r)
     = sum_values (extension_stats a) + count has_extension entries.
Proof.
  revert a. induction entries as [|e entries IH]; intros a; simpl.
  - unfold count; simpl. repeat split; lia.
  - destruct (IH (analyze_entry a e)) as (Hf & Hs & Hb & Hx).
    rewrite Hf, Hs, Hb, Hx. clear IH Hf Hs Hb Hx.
    rewrite count_cons. unfold analyze_entry at 1 2 3 4; simpl.
    rewrite bucket_total_count_size.
    repeat split; try lia.
    unfold has_extension. destruct (extension e) as [|c ext]; simpl.
    + lia.
    + rewrite sum_values_count_extension. lia.
Qed.

Lemma analyze_loop_buckets entries a :
  let r := size_distribution (fold_left analyze_entry entries a) in
  small r = small (size_distribution a) + count is_small entries
  /\ medium r = medium (size_distribution a) + count is_medium entries
  /\ large r = large (size_distribution a) + count is_large entries.
Proof.
  revert a. induction entries as [|e entries IH]; intros a; simpl.
  - unfold count; simpl. repeat split; lia.
  - destruct (IH (analyze_entry a e)) as (Hs & Hm & Hl).
    rewrite Hs, Hm, Hl. clear IH Hs Hm Hl.
    rewrite !count_cons. unfold analyze_entry, count_size; simpl.
    unfold is_small, is_medium, is_large.
    change (1024 ^ 2) with (2 ^ 20).
    destruct (Z.ltb_spec (size e) (2 ^ 20));
      destruct (Z.ltb_spec (size e) (100 * 2 ^ 20));
      destruct (Z.leb_spec (2 ^ 20) (size e));
      destruct (Z.leb_spec (100 * 2 ^ 20) (size e));
      simpl; repeat split; lia.
Qed.

(** C4: for every sequence of entries, the three bucket counts of the
    result add up to [total_files], and the values of [extension_stats]
    add up to the number of entries whose extension is not empty. *)
Theorem analyze_patterns_totals entries :
  bucket_total (size_distribution (analyze_patterns entries))
  = total_files (analyze_patterns entries)
  /\ sum_values (extension_stats (analyze_patterns entries))
     = count has_extension entries.
Proof.
  unfold analyze_patterns.
  match goal with
  | |- context [fold_left analyze_entry entries ?a] =>
      destruct (analyze_loop_invariant entries a) as (Hf & _ & Hb & Hx)
  end.
  rewrite Hf, Hb, Hx. split; reflexivity.
Qed.

(** C5: every entry is counted in exactly one bucket, by half-open
    ranges: [small] counts the entries below 2^20 bytes, [medium] those
    from 2^20 up to but excluding 100 * 2^20, [large] those from
    100 * 2^20 on; so 1048575 bytes is small, 1048576 medium and
    104857600 large. *)
Theorem analyze_patterns_buckets :
  (forall entries,
      let d := size_distribution (analyze_patterns entries) in
      small d = count is_small entries
      /\ medium d = count is_medium entries
      /\ large d = count is_large entries)
  /\ (forall e,
         Z.b2z (is_small e) + Z.b2z (is_medium e) + Z.b2z (is_large e) = 1)
  /\ (forall p x,
         size_distribution (analyze_patterns [mkFileEntry p 1048576 x])
         = mkSizeDistribution 0 1 0
         /\ size_distribution (analyze_patterns [mkFileEntry p 1048575 x])
            = mkSizeDistribution 1 0 0
         /\ size_distribution (analyze_patterns [mkFileEntry p 104857600 x])
            = mkSizeDistribution 0 0 1).
Proof.
  split; [|split].
  - intros entries. unfold analyze_patterns.
    match goal with
    | |- context [fold_left analyze_entry entries ?a] =>
        destruct (analyze_loop_buckets entries a) as (Hs & Hm & Hl)
    end.
    simpl in *. rewrite Hs, Hm, Hl. repeat split; lia.
  - intros e. unfold is_small, is_medium, is_large.
    destruct (Z.ltb_spec (size e) (2 ^ 20));
      destruct (Z.ltb_spec (size e) (100 * 2 ^ 20));
      destruct (Z.leb_spec (2 ^ 20) (size e));
      destruct (Z.leb_spec (100 * 2 ^ 20) (size e));
      simpl; lia.
  - intros p x. repeat split.
Qed.

End Aggregator.

(** ** The listing parser on concrete texts *)

(** C9: the empty text yields no entry, and the analysis of no entry has
    zero files, zero bytes, no extension and three empty buckets. *)
Theorem empty_input_all_zero :
  process_file_listing EmptyString = Returned []
  /\ analyze_patterns []
     = mkAnalysisResult 0 0 ∅ (mkSizeDistribution 0 0 0).
Proof. split; reflexivity. Qed.

(** C8: the example listing yields four entries, in this order, with the
    paths root, root/a.txt, root/sub, root/sub/b.log and the extensions
    none, .txt, none, .log. *)
Theorem example_listing_entries :
  process_file_listing example_listing = Returned example_entries
  /\ List.map path example_entries
     = ["root"; "root/a.txt"; "root/sub"; "root/sub/b.log"]
  /\ List.map extension example_entries = [""; ".txt"; ""; ".log"].
Proof. repeat split; vm_compute; reflexivity. Qed.

(** C2: the parse should go on with size 0 on a size token it cannot
    read, but a bracketed size token with two decimal points, on a line
    that matches the listing pattern, makes the whole parse raise. *)
Theorem process_file_listing_raises_on_bad_size :
  process_file_listing "[1.2.3] x" = Raised ValueError.
Proof. vm_compute. reflexivity. Qed.

(** ** The path stack *)

Section PathStack.

Lemma indent_level_nonneg line : 0 <= indent_level line.
Proof.
  unfold indent_level. apply Z.div_pos; [|lia].
  assert (String.length (Str.lstrip line) <= String.length line)%nat; [|lia].
  induction line as [|c s IH]; simpl; [lia|].
  destruct (Str.isspace c); simpl; lia.
Qed.

Lemma removelast_take {A} (l : list A) :
  removelast l = take (length l - 1) l.
Proof.
  induction l as [|x l IH]; [reflexivity|].
  destruct l as [|y l]; [reflexivity|].
  change (removelast (x :: y :: l)) with (x :: removelast (y :: l)).
  rewrite IH. simpl. rewrite Nat.sub_0_r. reflexivity.
Qed.

(** The [while] loop pops down to [indent_level] elements, and
    [length current_path] rounds are enough for it. *)
Lemma pop_while_take fuel (current_path : list string) i :
  0 <= i -> (length current_path <= fuel)%nat ->
  pop_while fuel current_path i = take (Z.to_nat i) current_path.
Proof.
  intros Hi. revert current_path.
  induction fuel as [|fuel IH]; intros l Hl; simpl.
  - destruct l; [|simpl in Hl; lia]. rewrite take_nil. reflexivity.
  - destruct (Z.ltb_spec i (Z.of_nat (length l))) as [Hlt|Hge].
    + rewrite IH.
      * rewrite removelast_take, take_take. f_equal. lia.
      * rewrite removelast_take, length_take. lia.
    + rewrite take_ge by lia. reflexivity.
Qed.

Lemma slice_to_take {A} (l : list A) i :
  0 <= i -> slice_to (take (Z.to_nat i) l) i = take (Z.to_nat i) l.
Proof.
  intros Hi. unfold slice_to.
  destruct (Z.ltb_spec i 0); [lia|].
  rewrite take_take. f_equal. lia.
Qed.

Lemma blank_line_no_match : Re.match_ line_re EmptyString = None.
Proof. reflexivity. Qed.

(** What one round of the loop does, case by case. *)
Lemma process_line_blank entries current_path line :
  Str.strip line = EmptyString ->
  process_line (entries, current_path) line
  = Returned (entries, current_path).
Proof. intros H. unfold process_line. rewrite H. reflexivity. Qed.

Lemma process_line_unmatched entries current_path line :
  Str.strip line <> EmptyString ->
  Re.match_ line_re (Str.strip line) = None ->
  process_line (entries, current_path) line
  = Returned (entries, take (Z.to_nat (indent_level line)) current_path).
Proof.
  intros Hne Hm. unfold process_line.
  destruct (Str.strip line) as [|c s] eqn:Hs; [congruence|].
  rewrite Hm, pop_while_take by (auto using indent_level_nonneg).
  reflexivity.
Qed.

Lemma process_line_matched entries current_path line m size_str name :
  Re.match_ line_re (Str.strip line) = Some m ->
  Re.group 1 m = Some size_str ->
  Re.group 2 m = Some name ->
  process_line (entries, current_path) line
  = bind (parse_file_size size_str) (fun sz =>
      let stack :=
        (take (Z.to_nat (indent_level line)) current_path ++ [name])%list in
      Returned
        ((entries
          ++ [mkFileEntry (Str.join "/" stack) sz
                (Str.lower (Path.suffix name))])%list,
         stack)).
Proof.
  intros Hm H1 H2. unfold process_line.
  destruct (Str.strip line) as [|c s] eqn:Hs.
  - rewrite blank_line_no_match in Hm. discriminate.
  - rewrite Hm, H1, H2.
    rewrite pop_while_take by (auto using indent_level_nonneg).
    rewrite slice_to_take by apply indent_level_nonneg.
    reflexivity.
Qed.

(** C3, as the code has it: a line whose trimmed content does not match
    the pattern emits no entry; a whitespace-only line leaves the path
    stack as it is, any other such line cuts the stack down to the line's
    depth, so the stack is unchanged when it is no deeper than that. *)
Theorem unmatched_line_cuts_stack entries current_path line :
  Re.match_ line_re (Str.strip line) = None ->
  process_line (entries, current_path) line
  = Returned
      (entries,
       if String.eqb (Str.strip line) EmptyString then current_path
       else take (Z.to_nat (indent_level line)) current_path)
  /\ (Z.of_nat (length current_path) <= indent_level line ->
      process_line (entries, current_path) line
      = Returned (entries, current_path)).
Proof.
  intros Hm.
  destruct (String.eqb_spec (Str.strip line) EmptyString) as [He|Hne].
  - rewrite process_line_blank by exact He. split; reflexivity.
  - rewrite process_line_unmatched by assumption. split; [reflexivity|].
    intros Hlen. rewrite take_ge by lia. reflexivity.
Qed.

Lemma unmatched_line_cuts_stack_witness :
  Re.match_ line_re (Str.strip "  # note") = None
  /\ process_line ([], ["root"; "sub"]) "  # note" = Returned ([], ["root"]).
Proof.
  split; [reflexivity|].
  apply (unmatched_line_cuts_stack [] ["root"; "sub"] "  # note").
  reflexivity.
Defined.

(** C3 as the specification states it does not hold: after [root] and
    [sub], a line without a bracketed size at column 0 empties the stack,
    and the path of the next entry is not what it is without that line. *)
Lemma unmatched_line_changes_next_path :
  Re.match_ line_re (Str.strip "garbage") = None
  /\ process_line ([], ["root"; "sub"]) "garbage" = Returned ([], [])
  /\ process_line ([], ["root"; "sub"]) "garbage"
     <> Returned ([], ["root"; "sub"])
  /\ process_file_listing
       (unlines ["[1M] root"; "  [1M] sub"; "garbage"; "    [1K] b.log"])
     = Returned [ mkFileEntry "root" 1048576 "";
                  mkFileEntry "root/sub" 1048576 "";
                  mkFileEntry "b.log" 1024 ".log" ]
  /\ process_file_listing
       (unlines ["[1M] root"; "  [1M] sub"; "    [1K] b.log"])
     = Returned [ mkFileEntry "root" 1048576 "";
                  mkFileEntry "root/sub" 1048576 "";
                  mkFileEntry "root/sub/b.log" 1024 ".log" ].
Proof.
  split; [reflexivity|]. split; [reflexivity|].
  split; [intros H; vm_compute in H; discriminate H|].
  split; vm_compute; reflexivity.
Qed.

End PathStack.

(** ** One entry for each matching line, in the order of the lines *)

Section EntriesAndLines.

Lemma line_matches_blank line :
  Str.strip line = EmptyString -> line_matches line = false.
Proof.
  intros H. unfold line_matches. rewrite H, blank_line_no_match. reflexivity.
Qed.

(** A round that returns either keeps the entries, on a line that does
    not match, or appends the entry of the line, on a line that does. *)
Lemma process_line_emits entries current_path line entries' current_path' :
  process_line (entries, current_path) line
  = Returned (entries', current_path') ->
  if line_matches line
  then exists e, entries' = (entries ++ [e])%list /\ emitted_from e line
  else entries' = entries.
Proof.
  intros Hstep. unfold line_matches.
  destruct (Re.match_ line_re (Str.strip line)) as [m|] eqn:Hm.
  - destruct (Re.group 1 m) as [size_str|] eqn:H1;
      [destruct (Re.group 2 m) as [name|] eqn:H2|].
    + rewrite (process_line_matched _ _ _ _ _ _ Hm H1 H2) in Hstep.
      destruct (parse_file_size size_str) as [sz|err] eqn:Hsz;
        simpl in Hstep; [|discriminate].
      injection Hstep as <- <-. eexists. split; [reflexivity|].
      exists m, size_str, name. simpl. repeat split; try assumption.
      eexists. reflexivity.
    + unfold process_line in Hstep.
      destruct (Str.strip line); [rewrite blank_line_no_match in Hm|];
        try discriminate.
      rewrite Hm, H1, H2 in Hstep. discriminate.
    + unfold process_line in Hstep.
      destruct (Str.strip line); [rewrite blank_line_no_match in Hm|];
        try discriminate.
      rewrite Hm, H1 in Hstep. discriminate.
  - destruct (String.eqb_spec (Str.strip line) EmptyString) as [He|Hne].
    + rewrite process_line_blank in Hstep by exact He. congruence.
    + rewrite process_line_unmatched in Hstep by assumption. congruence.
Qed.

Lemma process_lines_emits lines : forall entries current_path st',
  process_lines (entries, current_path) lines = Returned st' ->
  exists new,
    fst st' = (entries ++ new)%list
    /\ Forall2 emitted_from new (List.filter line_matches lines).
Proof.
  induction lines as [|line lines IH]; intros entries current_path st' Hrun;
    cbn [process_lines] in Hrun.
  - injection Hrun as <-. exists []. simpl. rewrite app_nil_r. auto.
  - destruct (process_line (entries, current_path) line)
      as [[entries1 path1]|err] eqn:Hstep; cbn [bind] in Hrun;
      [|discriminate].
    apply process_line_emits in Hstep.
    destruct (IH _ _ _ Hrun) as (new & Hnew & Hall).
    simpl. destruct (line_matches line).
    + destruct Hstep as (e & -> & He). exists (e :: new). split.
      * rewrite Hnew, <- app_assoc. reflexivity.
      * constructor; assumption.
    + subst entries1. exists new. split; assumption.
Qed.

(** A repetition succeeds only through its continuation. *)
Lemma star_greedy_some {R} cls (k : nat -> string -> option R) s : forall p m,
  Re.star_greedy cls k p s = Some m -> exists p' s', k p' s' = Some m.
Proof.
  induction s as [|c s IH]; intros p m; simpl; [eauto|].
  destruct (cls c); [|eauto].
  destruct (Re.star_greedy cls k (S p) s) eqn:Hs; [|eauto].
  intros [= <-]. eapply IH, Hs.
Qed.

Lemma plus_greedy_some {R} cls (k : nat -> string -> option R) s p m :
  Re.plus_greedy cls k p s = Some m -> exists p' s', k p' s' = Some m.
Proof.
  unfold Re.plus_greedy. destruct s as [|c s]; [discriminate|].
  destruct (cls c); [apply star_greedy_some|discriminate].
Qed.

Lemma plus_lazy_some {R} cls (k : nat -> string -> option R) s : forall p m,
  Re.plus_lazy cls k p s = Some m -> exists p' s', k p' s' = Some m.
Proof.
  induction s as [|c s IH]; intros p m; simpl; [discriminate|].
  destruct (cls c); [|discriminate].
  destruct (k (S p) s) eqn:Hk; [intros [= <-]; eauto|apply IH].
Qed.

(** Both groups take part in every match of the listing pattern. *)
Lemma line_re_groups s m :
  Re.match_ line_re s = Some m ->
  exists size_str name,
    Re.group 1 m = Some size_str /\ Re.group 2 m = Some name.
Proof.
  unfold Re.match_, line_re. cbn [Re.run Re.pos Re.rest Re.caps].
  intros H. apply star_greedy_some in H as (p1 & s1 & H).
  destruct s1 as [|c1 s1]; [discriminate|].
  destruct (Re.lit "[" c1); [|discriminate].
  apply plus_lazy_some in H as (p2 & s2 & H).
  cbn [Re.run Re.pos Re.rest Re.caps] in H.
  destruct s2 as [|c2 s2]; [discriminate|].
  destruct (Re.lit "]" c2); [|discriminate].
  apply plus_greedy_some in H as (p3 & s3 & H).
  cbn [Re.run Re.pos Re.rest Re.caps] in H.
  apply plus_greedy_some in H as (p4 & s4 & H).
  cbn [Re.run Re.pos Re.rest Re.caps] in H.
  destruct s4 as [|c4 [|c5 s4]]; try discriminate;
    [|destruct (Ascii.eqb c4 Str.LF); [|discriminate]];
    injection H as <-; do 2 eexists; split; reflexivity.
Qed.

(** A round returns when the size token of the line, if it has one, is a
    token on which [parse_file_size] returns. *)
Lemma process_line_returns st line :
  (forall tok, size_token line = Some tok ->
               exists sz, parse_file_size tok = Returned sz) ->
  exists st', process_line st line = Returned st'.
Proof.
  intros Htok. destruct st as [entries current_path]. unfold size_token in Htok.
  destruct (Re.match_ line_re (Str.strip line)) as [m|] eqn:Hm.
  - destruct (line_re_groups _ _ Hm) as (size_str & name & H1 & H2).
    rewrite (process_line_matched _ _ _ _ _ _ Hm H1 H2).
    destruct (Htok size_str H1) as (sz & ->). cbn [bind]. eauto.
  - destruct (String.eqb_spec (Str.strip line) EmptyString) as [He|Hne].
    + rewrite process_line_blank by exact He. eauto.
    + rewrite process_line_unmatched by assumption. eauto.
Qed.

Lemma process_lines_returns lines : forall st,
  (forall line tok, In line lines -> size_token line = Some tok ->
                    exists sz, parse_file_size tok = Returned sz) ->
  exists st', process_lines st lines = Returned st'.
Proof.
  induction lines as [|line lines IH]; intros st Htok;
    cbn [process_lines]; [eauto|].
  destruct (process_line_returns st line) as (st1 & ->).
  - intros tok. apply Htok. left. reflexivity.
  - cbn [bind]. apply IH. intros l tok Hl. apply Htok. right. exact Hl.
Qed.

(** C7: [process_file_listing] returns on every text in which the size
    token of each matching line is one on which [parse_file_size] returns;
    and when it returns, it returns as many entries as there are lines
    whose trimmed content matches the pattern, and the entries are those of
    these lines, one for one in the order of the lines. *)
Theorem entries_follow_matching_lines content :
  ((forall line tok,
       In line (Str.splitlines content) -> size_token line = Some tok ->
       exists sz, parse_file_size tok = Returned sz) ->
   exists entries, process_file_listing content = Returned entries)
  /\ (forall entries,
         process_file_listing content = Returned entries ->
         Z.of_nat (length entries)
         = count line_matches (Str.splitlines content)
         /\ Forall2 emitted_from entries
              (List.filter line_matches (Str.splitlines content))).
Proof.
  unfold process_file_listing. split.
  - intros Htok.
    destruct (process_lines_returns _ ([], []) Htok) as (st & ->).
    cbn [bind]. eauto.
  - intros entries Hrun.
    destruct (process_lines ([], []) (Str.splitlines content))
      as [st|err] eqn:Hlines; simpl in Hrun; [|discriminate].
    injection Hrun as <-.
    destruct (process_lines_emits _ _ _ _ Hlines) as (new & Hnew & Hall).
    simpl in Hnew. rewrite Hnew. split; [|exact Hall].
    unfold count. f_equal. eapply Forall2_length, Hall.
Qed.

Lemma entries_follow_matching_lines_witness :
  (exists entries, process_file_listing example_listing = Returned entries)
  /\ process_file_listing example_listing = Returned example_entries
  /\ Z.of_nat (length example_entries)
     = count line_matches (Str.splitlines example_listing)
  /\ Forall2 emitted_from example_entries
       (List.filter line_matches (Str.splitlines example_listing)).
Proof.
  split; [|split; [vm_compute; reflexivity|]].
  - apply (proj1 (entries_follow_matching_lines example_listing)).
    intros line tok [<-|[<-|[<-|[<-|[]]]]] [= <-];
      eexists; vm_compute; reflexivity.
  - apply (proj2 (entries_follow_matching_lines example_listing)
             example_entries).
    vm_compute. reflexivity.
Defined.

End EntriesAndLines.

(** ** Extensions of names with a leading or a trailing dot *)

Section Extension.

Lemma split_head sep s :
  exists p ps b, Str.split sep s = p :: ps /\ s = p ++ b.
Proof.
  induction s as [|c s (p & ps & b & Hs & Hb)]; simpl.
  - exists EmptyString, [], EmptyString. auto.
  - destruct (Ascii.eqb c sep).
    + exists EmptyString, (Str.split sep s), (String c s). auto.
    + rewrite Hs. exists (String c p), ps, b. split; [reflexivity|].
      rewrite Hb at 1. reflexivity.
Qed.

Lemma split_substring sep s x :
  In x (Str.split sep s) -> exists a b, s = a ++ x ++ b.
Proof.
  induction s as [|c s IH]; simpl.
  - intros [<-|[]]. exists EmptyString, EmptyString. reflexivity.
  - destruct (Ascii.eqb c sep).
    + intros [<-|Hx].
      * exists EmptyString, (String c s). reflexivity.
      * destruct (IH Hx) as (a & b & ->). exists (String c a), b. reflexivity.
    + destruct (split_head sep s) as (p & ps & b & Hs & Hb).
      rewrite Hs in *. intros [<-|Hx].
      * exists EmptyString, b. rewrite Hb at 1. reflexivity.
      * destruct (IH (or_intror Hx)) as (a & b' & ->).
        exists (String c a), b'. reflexivity.
Qed.

Lemma last_default_or_in {A} (l : list A) d :
  List.last l d = d \/ In (List.last l d) l.
Proof.
  induction l as [|x l IH]; [left; reflexivity|].
  destruct l as [|y l]; [right; left; reflexivity|].
  change (List.last (x :: y :: l) d) with (List.last (y :: l) d).
  destruct IH as [IH|IH]; [left; exact IH|right; right; exact IH].
Qed.

Lemma name_substring p :
  Path.name p = EmptyString \/ exists a b, p = a ++ Path.name p ++ b.
Proof.
  unfold Path.name.
  destruct (last_default_or_in (Path.parts p) EmptyString) as [H|H];
    [left; exact H|right].
  apply list_elem_of_In in H. unfold Path.parts in H.
  apply list_elem_of_filter in H as [_ H]. apply list_elem_of_In in H.
  eapply split_substring, H.
Qed.

Lemma rfind_lower_bound c s : -1 <= Str.rfind c s.
Proof.
  induction s as [|a s IH]; simpl; [lia|].
  destruct (Z.leb_spec 0 (Str.rfind c s)); [lia|].
  destruct (Ascii.eqb a c); lia.
Qed.

Lemma rfind_found c s :
  0 <= Str.rfind c s ->
  exists pre post,
    s = pre ++ String c post
    /\ Z.of_nat (String.length pre) = Str.rfind c s
    /\ Str.drop (Z.to_nat (Str.rfind c s)) s = String c post.
Proof.
  induction s as [|a s IH]; simpl; [lia|].
  destruct (Z.leb_spec 0 (Str.rfind c s)) as [Hi|Hi].
  - intros _. destruct (IH Hi) as (pre & post & Hs & Hlen & Hdrop).
    exists (String a pre), post.
    split; [rewrite Hs at 1; reflexivity|]. split; [simpl; lia|].
    replace (Z.to_nat (Str.rfind c s + 1)) with (S (Z.to_nat (Str.rfind c s)))
      by lia.
    exact Hdrop.
  - destruct (Ascii.eqb_spec a c) as [->|Hne]; [|lia].
    intros _. exists EmptyString, s. simpl. auto.
Qed.

(** A suffix exists only for a dot that is neither the first nor the last
    character of the name given. *)
Lemma suffix_inner_dot p :
  Path.suffix p <> EmptyString ->
  exists pre post,
    p = pre ++ String "." post /\ pre <> EmptyString /\ post <> EmptyString.
Proof.
  unfold Path.suffix. set (n := Path.name p).
  destruct (Z.ltb_spec 0 (Str.rfind "." n)) as [Hlo|]; [|simpl; congruence].
  destruct (Z.ltb_spec (Str.rfind "." n) (Z.of_nat (String.length n) - 1))
    as [Hhi|]; [|simpl; congruence].
  intros _. simpl.
  destruct (rfind_found "." n) as (pre & post & Hn & Hlen & _); [lia|].
  destruct (name_substring p) as [He|(a & b & Hp)].
  - fold n in He. rewrite He in Hlo. simpl in Hlo. lia.
  - fold n in Hp. exists (a ++ pre), (post ++ b). split; [|split].
    + rewrite Hp at 1. rewrite Hn at 1.
      rewrite !append_assoc, append_cons. reflexivity.
    + destruct pre; [simpl in Hlen; lia|]. destruct a; discriminate.
    + assert (Hlenn : String.length n
                      = (String.length pre + S (String.length post))%nat)
        by (rewrite Hn at 1; rewrite length_append; reflexivity).
      destruct post; [simpl in Hlenn; lia|]. destruct b; discriminate.
Qed.

Lemma contains_middle c a b : contains c (a ++ String c b) = true.
Proof.
  induction a as [|x a IH]; simpl.
  - rewrite Ascii.eqb_refl. reflexivity.
  - rewrite IH. apply orb_true_r.
Qed.

Lemma append_dot_inv base pre post :
  base ++ "." = pre ++ String "." post -> post <> EmptyString ->
  exists post', base = pre ++ String "." post'.
Proof.
  revert base. induction pre as [|x pre IH]; intros base Heq Hpost; simpl in *.
  - destruct base as [|c base]; simpl in Heq.
    + injection Heq as <-. congruence.
    + injection Heq as -> _. exists base. reflexivity.
  - destruct base as [|c base]; simpl in Heq.
    + injection Heq as _ Heq. destruct pre; discriminate.
    + injection Heq as -> Heq. destruct (IH _ Heq Hpost) as (post' & ->).
      exists post'. reflexivity.
Qed.

Lemma dot_name_suffix name :
  leading_dot_only name \/ trailing_dot_only name ->
  Path.suffix name = EmptyString.
Proof.
  intros Hname.
  destruct (string_dec (Path.suffix name) EmptyString) as [|Hne]; [assumption|].
  exfalso. destruct (suffix_inner_dot name Hne) as (pre & post & Hp & Hpre & Hpost).
  destruct Hname as [(rest & Hn & Hrest)|(base & Hn & Hbase)].
  - destruct pre as [|x pre]; [congruence|].
    rewrite Hn in Hp. simpl in Hp. injection Hp as _ ->.
    rewrite contains_middle in Hrest. discriminate.
  - rewrite Hn in Hp. destruct (append_dot_inv _ _ _ Hp Hpost) as (post' & ->).
    rewrite contains_middle in Hbase. discriminate.
Qed.

(** C10: on a matching line whose name starts with its only dot, or ends
    with its only dot, the entry emitted has the empty extension. *)
Theorem dot_names_have_no_extension
  entries current_path line m size_str name sz :
  Re.match_ line_re (Str.strip line) = Some m ->
  Re.group 1 m = Some size_str ->
  Re.group 2 m = Some name ->
  parse_file_size size_str = Returned sz ->
  leading_dot_only name \/ trailing_dot_only name ->
  exists full_path stack,
    process_line (entries, current_path) line
    = Returned ((entries ++ [mkFileEntry full_path sz ""])%list, stack).
Proof.
  intros Hm H1 H2 Hsz Hname.
  rewrite (process_line_matched _ _ _ _ _ _ Hm H1 H2), Hsz.
  cbn [bind]. rewrite (dot_name_suffix name Hname).
  do 2 eexists. reflexivity.
Qed.

Lemma dot_names_have_no_extension_witness :
  (leading_dot_only ".gitignore" /\ trailing_dot_only "file.")
  /\ (exists full_path stack,
         process_line ([], ["root"]) "  [1K] .gitignore"
         = Returned ([mkFileEntry full_path 1024 ""], stack))
  /\ (exists full_path stack,
         process_line ([], ["root"]) "  [1K] file."
         = Returned ([mkFileEntry full_path 1024 ""], stack)).
Proof.
  assert (Hl : leading_dot_only ".gitignore")
    by (exists "gitignore"; split; reflexivity).
  assert (Ht : trailing_dot_only "file.")
    by (exists "file"; split; reflexivity).
  split; [split; assumption|]. split.
  - apply (dot_names_have_no_extension [] ["root"] "  [1K] .gitignore"
             [(2%nat, ".gitignore"); (1%nat, "1K")] "1K" ".gitignore" 1024);
      [reflexivity..|left; exact Hl].
  - apply (dot_names_have_no_extension [] ["root"] "  [1K] file."
             [(2%nat, "file."); (1%nat, "1K")] "1K" "file." 1024);
      [reflexivity..|right; exact Ht].
Defined.

End Extension.

(** ** The size pattern *)

Section SizePattern.

Lemma span_append cls s : s = fst (span cls s) ++ snd (span cls s).
Proof.
  induction s as [|c s IH]; simpl; [reflexivity|].
  destruct (cls c); [|reflexivity].
  destruct (span cls s) as [v r]. simpl in *.
  rewrite append_cons, <- IH. reflexivity.
Qed.

(** A greedy repetition gives back nothing when what follows it cannot
    start on a character of the class. *)
Lemma star_greedy_span {R} cls (k : nat -> string -> option R) s : forall p,
  (forall q c r, cls c = true -> k q (String c r) = None) ->
  Re.star_greedy cls k p s
  = k (p + String.length (fst (span cls s)))%nat (snd (span cls s)).
Proof.
  induction s as [|c s IH]; intros p Hk; simpl.
  - rewrite Nat.add_0_r. reflexivity.
  - destruct (cls c) eqn:Hc.
    + rewrite IH by exact Hk. destruct (span cls s) as [v r]. simpl.
      rewrite Nat.add_succ_r.
      destruct (k (S (p + String.length v))%nat r); [reflexivity|].
      apply Hk, Hc.
    + simpl. rewrite Nat.add_0_r. reflexivity.
Qed.

Lemma take_length_append (v r : string) :
  Str.take (String.length v) (v ++ r) = v.
Proof.
  induction v as [|c v IH].
  - destruct r; reflexivity.
  - change (String c (Str.take (String.length v) (v ++ r)) = String c v).
    rewrite IH. reflexivity.
Qed.

Lemma unit_letter_cases c :
  Re.unit_letter c = true ->
  Ascii.eqb c "B" = false /\ Ascii.eqb c Str.LF = false
  /\ Re.digit_or_dot c = false.
Proof.
  unfold Re.unit_letter. intros H.
  repeat (apply orb_true_iff in H as [H|H]);
    apply Ascii.eqb_eq in H; subst c; repeat split.
Qed.

Lemma digit_or_dot_cases c :
  Re.digit_or_dot c = true ->
  Re.unit_letter c = false /\ Ascii.eqb c "B" = false
  /\ Ascii.eqb c Str.LF = false.
Proof.
  intros H. destruct c as [[] [] [] [] [] [] [] []];
    try discriminate H; repeat split.
Qed.

Lemma size_tail_run p r caps :
  Re.run size_tail (fun st => Some (Re.caps st)) (Re.State p r caps)
  = match unit_and_end r with
    | Some (Some c) => Some ((2%nat, String c EmptyString) :: caps)
    | Some None => Some caps
    | None => None
    end.
Proof.
  unfold size_tail, unit_and_end, Re.lit. cbn [Re.run Re.rest Re.pos Re.caps].
  destruct r as [|c r]; [reflexivity|].
  destruct (Re.unit_letter c) eqn:Hu.
  - destruct (unit_letter_cases c Hu) as (HB & HLF & _).
    replace (S p - p)%nat with 1%nat by lia.
    rewrite HB.
    destruct r as [|b r]; cbn [skip_B at_end Str.take]; [reflexivity|].
    destruct (Ascii.eqb b "B") eqn:Hb.
    + destruct r as [|d r]; cbn [at_end]; [reflexivity|].
      destruct r as [|d' r]; [|reflexivity].
      destruct (Ascii.eqb d Str.LF); [reflexivity|].
      apply Ascii.eqb_eq in Hb. subst b. reflexivity.
    + destruct r as [|d r]; cbn [at_end]; [|reflexivity].
      destruct (Ascii.eqb b Str.LF); reflexivity.
  - cbn [skip_B]. destruct (Ascii.eqb c "B") eqn:Hc.
    + apply Ascii.eqb_eq in Hc. subst c.
      destruct r as [|d r]; cbn [at_end]; [reflexivity|].
      destruct r as [|d' r]; [|reflexivity].
      destruct (Ascii.eqb d Str.LF); reflexivity.
    + destruct r as [|d r]; cbn [at_end]; [|reflexivity].
      destruct (Ascii.eqb c Str.LF); reflexivity.
Qed.

Lemma size_tail_run_none p c r caps :
  Re.digit_or_dot c = true ->
  Re.run size_tail (fun st => Some (Re.caps st)) (Re.State p (String c r) caps)
  = None.
Proof.
  intros Hc. rewrite size_tail_run. unfold unit_and_end.
  destruct (digit_or_dot_cases c Hc) as (Hu & HB & HLF).
  rewrite Hu. cbn [skip_B]. rewrite HB. cbn [at_end].
  destruct r; [rewrite HLF|]; reflexivity.
Qed.

(** The backtracking matcher on the size pattern computes [size_fields]. *)
Lemma size_re_match s :
  Re.match_ size_re s
  = match size_fields s with
    | Some (v, u) => Some (size_captures v u)
    | None => None
    end.
Proof.
  unfold Re.match_, size_re, size_fields. fold size_tail.
  cbn [Re.run Re.pos Re.rest Re.caps Nat.eqb]. unfold Re.plus_greedy.
  destruct s as [|c s]; [reflexivity|]. cbn [span].
  destruct (Re.digit_or_dot c) eqn:Hc; [|reflexivity].
  rewrite star_greedy_span
    by (intros; apply size_tail_run_none; assumption).
  rewrite size_tail_run.
  pose proof (span_append Re.digit_or_dot s) as Hs.
  destruct (span Re.digit_or_dot s) as [v r]. cbn [fst snd] in *.
  replace (1 + String.length v - 0)%nat with (String.length (String c v))
    by (simpl; lia).
  assert (Htake : Str.take (String.length (String c v)) (String c s)
                  = String c v).
  { rewrite Hs at 1. rewrite <- append_cons. apply take_length_append. }
  rewrite Htake. destruct (unit_and_end r) as [[u|]|]; reflexivity.
Qed.

End SizePattern.

(** ** Binary64 rounding *)

Section Rounding.

Lemma fexp64_eq e : fexp 53 1024 e = Z.max (e - 53) (-1074).
Proof. reflexivity. Qed.

Lemma iter_pos_nat {A} (f : A -> A) p : forall x,
  SpecFloat.iter_pos f p x = Nat.iter (Pos.to_nat p) f x.
Proof.
  induction p as [p IH|p IH|]; intros x; cbn [SpecFloat.iter_pos].
  - rewrite !IH, Pos2Nat.inj_xI.
    replace (S (2 * Pos.to_nat p)) with (Pos.to_nat p + (Pos.to_nat p + 1))%nat
      by lia.
    rewrite !Nat.iter_add. reflexivity.
  - rewrite !IH, Pos2Nat.inj_xO.
    replace (2 * Pos.to_nat p)%nat with (Pos.to_nat p + Pos.to_nat p)%nat
      by lia.
    rewrite Nat.iter_add. reflexivity.
  - reflexivity.
Qed.

Lemma shr_1_m mrs : 0 <= shr_m mrs -> shr_m (shr_1 mrs) = shr_m mrs / 2.
Proof.
  destruct mrs as [m r s]. cbn [shr_m]. intros Hm.
  destruct m as [|[p|p|]|p]; cbn [shr_1 shr_m]; try lia; try reflexivity;
    first [apply Z.div_unique with 1; lia | apply Z.div_unique with 0; lia].
Qed.

Lemma shr_iter_m n : forall mrs,
  0 <= shr_m mrs ->
  shr_m (Nat.iter n shr_1 mrs) = shr_m mrs / 2 ^ Z.of_nat n.
Proof.
  induction n as [|n IH]; intros mrs Hm.
  - simpl. rewrite Z.div_1_r. reflexivity.
  - rewrite Nat.iter_succ_r, IH.
    + rewrite shr_1_m by exact Hm.
      rewrite Nat2Z.inj_succ, Z.pow_succ_r by lia.
      rewrite Z.div_div by lia. reflexivity.
    + rewrite shr_1_m by exact Hm. apply Z.div_pos; lia.
Qed.

(** Shifting out zero bits only is exact. *)
Lemma shr_1_exact m :
  0 <= m -> shr_1 (Build_shr_record (2 * m) false false)
            = Build_shr_record m false false.
Proof. intros Hm. destruct m as [|p|p]; [reflexivity|reflexivity|lia]. Qed.

Lemma shr_iter_exact n : forall m,
  0 <= m ->
  Nat.iter n shr_1 (Build_shr_record (m * 2 ^ Z.of_nat n) false false)
  = Build_shr_record m false false.
Proof.
  induction n as [|n IH]; intros m Hm.
  - simpl. rewrite Z.mul_1_r. reflexivity.
  - rewrite Nat.iter_succ_r, Nat2Z.inj_succ, Z.pow_succ_r by lia.
    replace (m * (2 * 2 ^ Z.of_nat n)) with (2 * (m * 2 ^ Z.of_nat n)) by lia.
    rewrite shr_1_exact by (apply Z.mul_nonneg_nonneg; lia).
    apply IH, Hm.
Qed.

(** The shift of [shr], as a division. *)
Lemma shr_m_div mrs e n :
  0 <= shr_m mrs -> 0 <= n ->
  shr_m (fst (shr mrs e n)) = shr_m mrs / 2 ^ n /\ snd (shr mrs e n) = e + n.
Proof.
  intros Hm Hn. destruct n as [|p|p]; simpl; [|  |lia].
  - rewrite Z.div_1_r. split; [reflexivity|lia].
  - rewrite iter_pos_nat, shr_iter_m by exact Hm.
    rewrite positive_nat_Z. split; reflexivity.
Qed.

Lemma shr_exact m e n :
  0 <= m -> 0 <= n ->
  shr (Build_shr_record (m * 2 ^ n) false false) e n
  = (Build_shr_record m false false, e + n).
Proof.
  intros Hm Hn. destruct n as [|p|p]; simpl; [| |lia].
  - rewrite Z.mul_1_r, Z.add_0_r. reflexivity.
  - rewrite iter_pos_nat. rewrite <- (positive_nat_Z p) at 1.
    rewrite shr_iter_exact by exact Hm. reflexivity.
Qed.

(** The number of binary digits, through [Z.log2]. *)
Lemma digits2_pos_size p : digits2_pos p = Pos.size p.
Proof. induction p as [p IH|p IH|]; simpl; rewrite ?IH; reflexivity. Qed.

Lemma Zdigits2_log2 m : 0 < m -> Zdigits2 m = Z.log2 m + 1.
Proof.
  destruct m as [|p|p]; try lia. intros _. simpl.
  rewrite digits2_pos_size. destruct p as [p|p|]; simpl; lia.
Qed.

Lemma Zdigits2_bounds m :
  0 < m -> 2 ^ (Zdigits2 m - 1) <= m < 2 ^ Zdigits2 m.
Proof.
  intros Hm. rewrite Zdigits2_log2 by exact Hm.
  replace (Z.log2 m + 1 - 1) with (Z.log2 m) by lia.
  replace (Z.log2 m + 1) with (Z.succ (Z.log2 m)) by lia.
  apply Z.log2_spec, Hm.
Qed.

Lemma Zdigits2_nonneg m : 0 <= m -> 0 <= Zdigits2 m.
Proof. destruct m; simpl; lia. Qed.

Lemma Zdigits2_pos m : 0 < m -> 0 < Zdigits2 m.
Proof. destruct m; simpl; lia. Qed.

Lemma Zdigits2_le m n : 0 <= m -> m <= n -> Zdigits2 m <= Zdigits2 n.
Proof.
  intros Hm Hmn. destruct (Z.eq_dec m 0) as [->|Hne].
  - apply Zdigits2_nonneg. lia.
  - rewrite !Zdigits2_log2 by lia. pose proof (Z.log2_le_mono m n Hmn). lia.
Qed.

(** At least [d] digits, for a number that is at least [2^(d-1)]. *)
Lemma Zdigits2_ge m d : 0 < m -> 2 ^ (d - 1) <= m -> d <= Zdigits2 m.
Proof.
  intros Hm Hd. destruct (Z.le_gt_cases d (Zdigits2 m)) as [|Hlt]; [assumption|].
  exfalso. pose proof (Zdigits2_bounds m Hm) as [_ Hub].
  assert (2 ^ Zdigits2 m <= 2 ^ (d - 1)) by (apply Z.pow_le_mono_r; lia).
  lia.
Qed.

Lemma Zdigits2_shiftr m n :
  0 <= n -> 0 < m / 2 ^ n -> Zdigits2 (m / 2 ^ n) = Zdigits2 m - n.
Proof.
  intros Hn Hq.
  assert (Hm : 0 < m).
  { destruct (Z.lt_trichotomy m 0) as [H|[H|H]]; [|subst; rewrite Z.div_0_l in Hq; lia|exact H].
    assert (m / 2 ^ n < 0) by (apply Z.div_lt_upper_bound; lia). lia. }
  rewrite !Zdigits2_log2 by assumption.
  rewrite <- Z.shiftr_div_pow2 by exact Hn.
  rewrite Z.log2_shiftr by exact Hm.
  rewrite <- Z.shiftr_div_pow2 in Hq by exact Hn.
  assert (0 <= Z.log2 m - n \/ Z.log2 m - n < 0) as [H|H] by lia; [lia|].
  (* the quotient is positive, so [m] has more than [n] digits *)
  exfalso.
  assert (m < 2 ^ n).
  { pose proof (Z.log2_spec m Hm) as [_ Hub].
    assert (2 ^ Z.succ (Z.log2 m) <= 2 ^ n) by (apply Z.pow_le_mono_r; lia).
    lia. }
  rewrite Z.shiftr_div_pow2, Z.div_small in Hq by lia. lia.
Qed.

Lemma Zdigits2_mul_pow2 m n :
  0 < m -> 0 <= n -> Zdigits2 (m * 2 ^ n) = Zdigits2 m + n.
Proof.
  intros Hm Hn.
  assert (0 < 2 ^ n) by (apply Z.pow_pos_nonneg; lia).
  rewrite !Zdigits2_log2 by nia. rewrite Z.log2_mul_pow2 by lia. lia.
Qed.

Lemma shr_m_record_of_loc m l : shr_m (shr_record_of_loc m l) = m.
Proof. destruct l as [|[]]; reflexivity. Qed.

(** The first step of rounding: the mantissa is shifted to the exponent of
    the format, and what is left is in canonical form. *)
Lemma shr_fexp_spec m e l :
  0 <= m -> e <= fexp 53 1024 (Zdigits2 m + e) ->
  let r := shr_fexp 53 1024 m e l in
  snd r = fexp 53 1024 (Zdigits2 m + e)
  /\ shr_m (fst r) = m / 2 ^ (snd r - e)
  /\ (0 < shr_m (fst r) -> Zdigits2 (shr_m (fst r)) + snd r = Zdigits2 m + e)
  /\ (shr_m (fst r) = 0 -> snd r = -1074).
Proof.
  intros Hm He. unfold shr_fexp.
  set (n := fexp 53 1024 (Zdigits2 m + e) - e).
  assert (Hn : 0 <= n) by (unfold n; lia).
  destruct (shr_m_div (shr_record_of_loc m l) e n) as [Hq Hs];
    [rewrite shr_m_record_of_loc; exact Hm|exact Hn|].
  rewrite shr_m_record_of_loc in Hq. cbv zeta.
  rewrite Hs, Hq. replace (e + n - e) with n by lia.
  split; [unfold n; lia|]. split; [reflexivity|]. split.
  - intros Hpos. rewrite Zdigits2_shiftr by assumption. lia.
  - intros Hzero.
    assert (Hd : Zdigits2 m <= n).
    { destruct (Z.eq_dec m 0) as [->|Hne]; [simpl; lia|].
      destruct (Z.le_gt_cases (Zdigits2 m) n) as [|Hgt]; [assumption|].
      exfalso. pose proof (Zdigits2_bounds m ltac:(lia)) as [Hlb _].
      assert (2 ^ n <= 2 ^ (Zdigits2 m - 1)) by (apply Z.pow_le_mono_r; lia).
      assert (0 < m / 2 ^ n); [|lia].
      apply Z.div_str_pos. lia. }
    unfold n in *. rewrite fexp64_eq in *. lia.
Qed.

Lemma round_nearest_even_range m l :
  m <= round_nearest_even m l <= m + 1.
Proof.
  destruct l as [|[]]; simpl; try lia. destruct (Z.even m); lia.
Qed.

(** Rounding a mantissa that has enough digits for its exponent gives a
    number of the format. *)
Lemma binary_round_aux_valid m e l :
  0 <= m -> e <= fexp 53 1024 (Zdigits2 m + e) ->
  valid_nonneg (binary_round_aux 53 1024 false m e l)
  /\ exponent_below (fexp 53 1024 (Zdigits2 m + e + 1))
       (binary_round_aux 53 1024 false m e l).
Proof.
  intros Hm He. unfold binary_round_aux.
  pose proof (shr_fexp_spec m e l Hm He) as H1. cbv zeta in H1.
  destruct (shr_fexp 53 1024 m e l) as [mrs1 e1]. cbn [fst snd] in H1.
  destruct H1 as (He1 & Hm1 & Hpos1 & Hzero1).
  set (m2 := round_nearest_even (shr_m mrs1) (loc_of_shr_record mrs1)).
  pose proof (round_nearest_even_range (shr_m mrs1) (loc_of_shr_record mrs1))
    as Hm2. fold m2 in Hm2.
  assert (H0m1 : 0 <= shr_m mrs1)
    by (rewrite Hm1; apply Z.div_pos; [lia|apply Z.pow_pos_nonneg; lia]).
  assert (He2 : e1 <= fexp 53 1024 (Zdigits2 m2 + e1)).
  { destruct (Z.eq_dec (shr_m mrs1) 0) as [Hz|Hnz].
    - rewrite (Hzero1 Hz), fexp64_eq. lia.
    - pose proof (Zdigits2_le (shr_m mrs1) m2 H0m1 (proj1 Hm2)).
      specialize (Hpos1 ltac:(lia)). rewrite fexp64_eq in *. lia. }
  pose proof (shr_fexp_spec m2 e1 loc_Exact ltac:(lia) He2) as H2.
  cbv zeta in H2.
  destruct (shr_fexp 53 1024 m2 e1 loc_Exact) as [mrs2 e2].
  cbn [fst snd] in H2. destruct H2 as (He2' & Hm3 & Hpos2 & _).
  assert (Hbound : e2 <= fexp 53 1024 (Zdigits2 m + e + 1)).
  { destruct (Z.eq_dec (shr_m mrs1) 0) as [Hz|Hnz].
    - pose proof (Zdigits2_le m2 1 ltac:(lia) ltac:(lia)) as Hd.
      cbn in Hd. rewrite (Hzero1 Hz) in He2'. rewrite fexp64_eq in *. lia.
    - pose proof (Zdigits2_le m2 (shr_m mrs1 * 2 ^ 1) ltac:(lia) ltac:(lia))
        as Hd.
      rewrite Zdigits2_mul_pow2 in Hd by lia.
      specialize (Hpos1 ltac:(lia)). rewrite fexp64_eq in *. lia. }
  destruct (shr_m mrs2) as [|p|p] eqn:Hp; cbn [valid_nonneg exponent_below].
  - split; exact I.
  - destruct (Z.leb_spec e2 (1024 - 53)) as [Hle|Hgt];
      cbn [valid_nonneg exponent_below]; [|split; [exact I|lia]].
    split; [|exact Hbound].
    unfold bounded, canonical_mantissa. specialize (Hpos2 ltac:(lia)).
    cbn [Zdigits2] in Hpos2. rewrite Hpos2, <- He2'.
    rewrite Z.eqb_refl. apply Z.leb_le in Hle. rewrite Hle. reflexivity.
  - assert (0 <= m2 / 2 ^ (e2 - e1))
      by (apply Z.div_pos; [lia|apply Z.pow_pos_nonneg; lia]).
    lia.
Qed.

Lemma exponent_below_mono b b' x :
  b <= b' -> exponent_below b x -> exponent_below b' x.
Proof. destruct x; simpl; intros; lia || exact I. Qed.

(** The quotient that [of_decimal] hands to the rounding has enough digits
    for its exponent. *)
Lemma div_core_enough_digits D T :
  0 < D -> 0 < T ->
  let '(q, e, _) := SFdiv_core_binary 53 1024 D 0 T 0 in
  0 <= q /\ e <= fexp 53 1024 (Zdigits2 q + e)
  /\ Zdigits2 q + e <= Zdigits2 D.
Proof.
  intros HD HT. unfold SFdiv_core_binary.
  rewrite !Z.add_0_r. change (0 - 0) with 0.
  set (d1 := Zdigits2 D). set (d2 := Zdigits2 T).
  set (e := Z.min (fexp 53 1024 (d1 - d2)) 0).
  set (s := 0 - e).
  assert (Hs : 0 <= s) by (unfold s, e; lia).
  set (m := match s with
            | 0 => D
            | Z.pos _ => Z.shiftl D s
            | Z.neg _ => 0
            end).
  assert (Hm : m = D * 2 ^ s).
  { unfold m. destruct s as [|p|p]; [simpl; lia| |lia].
    apply Z.shiftl_mul_pow2. lia. }
  pose proof (Z_div_mod m T ltac:(lia)) as Hdiv.
  destruct (Z.div_eucl m T) as [q r]. destruct Hdiv as [Hqr Hr].
  pose proof (Zdigits2_bounds D HD) as [HDlo _]. fold d1 in HDlo.
  pose proof (Zdigits2_bounds T HT) as [_ HThi]. fold d2 in HThi.
  assert (H2s : 0 < 2 ^ s) by (apply Z.pow_pos_nonneg; lia).
  assert (Hd1 : 0 < d1) by (apply Zdigits2_pos, HD).
  assert (Hd2 : 0 < d2) by (apply Zdigits2_pos, HT).
  assert (Hmlo : 2 ^ (d1 - 1 + s) <= m).
  { rewrite Hm, Z.pow_add_r by lia. apply Z.mul_le_mono_nonneg_r; lia. }
  assert (Hq : 0 <= q) by nia.
  split; [exact Hq|].
  assert (Hqd : Zdigits2 q + e <= d1).
  { destruct (Z.eq_dec q 0) as [->|Hq0]; [cbn [Zdigits2]; unfold e; lia|].
    pose proof (Zdigits2_le q m Hq ltac:(nia)) as Hle.
    rewrite Hm, Zdigits2_mul_pow2 in Hle by lia. fold d1 in Hle.
    unfold s in Hle. lia. }
  split; [|exact Hqd]. clear Hqd.
  destruct (Z.eq_dec q 0) as [->|Hq0].
  - (* the quotient is zero only at the least exponent *)
    cbn [Zdigits2]. rewrite fexp64_eq.
    destruct (Z.le_gt_cases e (-1074)) as [|Hgt]; [lia|]. exfalso.
    assert (Hsd : d2 + 53 - d1 <= s)
      by (unfold s, e in *; rewrite fexp64_eq in *; lia).
    assert (2 ^ d2 <= 2 ^ (d1 - 1 + s)) by (apply Z.pow_le_mono_r; lia).
    lia.
  - assert (Hdq : d1 - d2 + s <= Zdigits2 q).
    { apply Zdigits2_ge; [lia|].
      destruct (Z.lt_ge_cases (d1 - d2 + s - 1) 0) as [Hneg|Hnn].
      - rewrite Z.pow_neg_r by exact Hneg. lia.
      - destruct (Z.le_gt_cases (2 ^ (d1 - d2 + s - 1)) q) as [|Hlt];
          [assumption|exfalso].
        assert (m < 2 ^ (d1 - d2 + s - 1) * 2 ^ d2) by nia.
        rewrite <- Z.pow_add_r in H by lia.
        replace (d1 - d2 + s - 1 + d2) with (d1 - 1 + s) in H by lia. lia. }
    unfold s, e in *. rewrite !fexp64_eq in *. lia.
Qed.

Lemma of_decimal_valid d k :
  0 <= d ->
  valid_nonneg (Float.of_decimal d k)
  /\ exponent_below (fexp 53 1024 (Zdigits2 d + 1)) (Float.of_decimal d k).
Proof.
  intros Hd. unfold Float.of_decimal.
  destruct d as [|p|p]; [split; exact I| |lia].
  pose proof (div_core_enough_digits (Z.pos p) (10 ^ Z.of_nat k)
                ltac:(lia) ltac:(apply Z.pow_pos_nonneg; lia)) as H.
  unfold Float.prec, Float.emax.
  destruct (SFdiv_core_binary 53 1024 (Z.pos p) 0 (10 ^ Z.of_nat k) 0)
    as [[q e] l].
  destruct H as (Hq & He & Hqd).
  destruct (binary_round_aux_valid q e l Hq He) as [Hv Hb].
  split; [exact Hv|]. eapply exponent_below_mono, Hb.
  rewrite !fexp64_eq. lia.
Qed.

(** Rounding a mantissa whose low bits are zero, down to a canonical
    mantissa, loses nothing. *)
Lemma binary_round_aux_exact m1 e1 n :
  0 < m1 -> 0 <= n -> fexp 53 1024 (Zdigits2 m1 + e1) = e1 ->
  binary_round_aux 53 1024 false (m1 * 2 ^ n) (e1 - n) loc_Exact
  = if e1 <=? 1024 - 53 then S754_finite false (Z.to_pos m1) e1
    else S754_infinity false.
Proof.
  intros Hm Hn Hcan. unfold binary_round_aux, shr_fexp.
  rewrite Zdigits2_mul_pow2 by assumption.
  replace (Zdigits2 m1 + n + (e1 - n)) with (Zdigits2 m1 + e1) by lia.
  rewrite Hcan. replace (e1 - (e1 - n)) with n by lia.
  cbn [shr_record_of_loc]. rewrite shr_exact by lia.
  cbn [shr_m loc_of_shr_record round_nearest_even shr_record_of_loc].
  replace (e1 - n + n) with e1 by lia. rewrite Hcan, Z.sub_diag.
  cbn [shr shr_m]. destruct m1 as [|p|p]; try lia. reflexivity.
Qed.

(** Multiplying a number of the format by a power of two is exact, unless
    it overflows. *)
Lemma mul_pow2_exact mx ex j :
  bounded 53 1024 mx ex = true -> 0 <= j <= 52 ->
  exists m e,
    Z.pos m * 2 ^ (e + 1074) = Z.pos mx * 2 ^ (ex + j + 1074)
    /\ -1074 <= e <= Z.max (ex + j) (-1074)
    /\ SFmul 53 1024 (S754_finite false mx ex)
         (S754_finite false 4503599627370496 (j - 52))
       = if e <=? 1024 - 53 then S754_finite false m e
         else S754_infinity false.
Proof.
  intros Hb Hj. unfold bounded, canonical_mantissa in Hb.
  apply andb_true_iff in Hb as [Hcan _]. apply Z.eqb_eq in Hcan.
  change (Z.pos (digits2_pos mx)) with (Zdigits2 (Z.pos mx)) in Hcan.
  set (dx := Zdigits2 (Z.pos mx)) in *.
  set (e1 := fexp 53 1024 (dx + ex + j)).
  set (n := e1 - (ex + j - 52)).
  assert (Hdx : 0 < dx) by (apply Zdigits2_pos; lia).
  assert (Hn : 0 <= n <= 52)
    by (unfold n, e1; rewrite fexp64_eq in *; lia).
  set (m1 := Z.pos mx * 2 ^ (52 - n)).
  assert (Hm1 : 0 < m1)
    by (unfold m1; apply Z.mul_pos_pos; [lia|apply Z.pow_pos_nonneg; lia]).
  exists (Z.to_pos m1), e1.
  assert (He1 : -1074 <= e1 <= Z.max (ex + j) (-1074))
    by (unfold e1; rewrite fexp64_eq in *; lia).
  split; [|split; [exact He1|]].
  - rewrite Z2Pos.id by exact Hm1. unfold m1.
    rewrite <- Z.mul_assoc, <- Z.pow_add_r by lia. do 2 f_equal. lia.
  - cbn [SFmul xorb]. rewrite Pos2Z.inj_mul.
    change (Z.pos 4503599627370496) with (2 ^ 52).
    replace (Z.pos mx * 2 ^ 52) with (m1 * 2 ^ n).
    + replace (ex + (j - 52)) with (e1 - n) by lia.
      apply binary_round_aux_exact; [exact Hm1|lia|].
      unfold m1. rewrite Zdigits2_mul_pow2 by lia. fold dx.
      replace (dx + (52 - n) + e1) with (dx + ex + j) by lia. reflexivity.
    + unfold m1. rewrite <- Z.mul_assoc, <- Z.pow_add_r by lia.
      do 2 f_equal. lia.
Qed.

End Rounding.

(** ** The value of a size token *)

Section SizeValue.

Lemma digit_value_nonneg c : Str.isdecimal c = true -> 0 <= Float.digit_value c.
Proof.
  unfold Str.isdecimal, Str.in_range, Float.digit_value. intros H.
  apply andb_true_iff in H as [H _]. apply N.leb_le in H. lia.
Qed.

Lemma read_digits_nonneg s : forall acc n,
  0 <= acc -> 0 <= fst (fst (Float.read_digits acc n s)).
Proof.
  induction s as [|c s IH]; intros acc n Hacc; simpl; [exact Hacc|].
  destruct (Str.isdecimal c) eqn:Hc; [|exact Hacc].
  apply IH. pose proof (digit_value_nonneg c Hc). lia.
Qed.

(** [float] of a string of digits and dots, when it does not raise, is a
    number of the format that is not negative. *)
Lemma of_string_valid s x : Float.of_string s = Returned x -> valid_nonneg x.
Proof.
  unfold Float.of_string.
  pose proof (read_digits_nonneg s 0 0 ltac:(lia)) as Hip.
  destruct (Float.read_digits 0 0 s) as [[ip ni] r]. cbn [fst] in Hip.
  destruct r as [|c r].
  - destruct (Nat.eqb ni 0); [discriminate|].
    intros [= <-]. apply (proj1 (of_decimal_valid ip 0 Hip)).
  - destruct (Ascii.eqb c "."); [|discriminate].
    pose proof (read_digits_nonneg r ip 0 Hip) as Hd.
    destruct (Float.read_digits ip 0 r) as [[d nf] r']. cbn [fst] in Hd.
    destruct r'; [|discriminate].
    destruct (Nat.eqb (ni + nf) 0); [discriminate|].
    intros [= <-]. apply (proj1 (of_decimal_valid d nf Hd)).
Qed.

Lemma shiftl_offset a e k :
  0 <= k -> - k <= e -> Z.shiftl a e = a * 2 ^ (e + k) / 2 ^ k.
Proof.
  intros Hk He.
  assert (0 < 2 ^ k) by (apply Z.pow_pos_nonneg; lia).
  destruct (Z.le_gt_cases 0 e) as [Hpos|Hneg].
  - rewrite Z.shiftl_mul_pow2, Z.pow_add_r, Z.mul_assoc by lia.
    rewrite Z.div_mul by lia. reflexivity.
  - rewrite Z.shiftl_div_pow2 by lia.
    assert (0 < 2 ^ (e + k)) by (apply Z.pow_pos_nonneg; lia).
    replace (2 ^ k) with (2 ^ (- e) * 2 ^ (e + k))
      by (rewrite <- Z.pow_add_r by lia; f_equal; lia).
    rewrite Z.div_mul_cancel_r by lia. reflexivity.
Qed.

Lemma Qpower2_offset e k :
  0 <= k -> - k <= e ->
  ((2 # 1) ^ e == inject_Z (2 ^ (e + k)) / inject_Z (2 ^ k))%Q.
Proof.
  intros Hk He.
  change (2 # 1)%Q with (inject_Z 2).
  rewrite !Zpower_Qpower by lia.
  replace e with ((e + k) + - k) at 1 by lia.
  rewrite Qpower_plus by discriminate.
  rewrite Qpower_opp. reflexivity.
Qed.

(** The integer part of a number that is not negative, times a factor. *)
Lemma Qfloor_scaled m e f :
  -1074 <= e ->
  Qfloor (F2Q (S754_finite false m e) * inject_Z f)
  = Z.pos m * 2 ^ (e + 1074) * f / 2 ^ 1074.
Proof.
  intros He. cbn [F2Q cond_Zopp].
  assert (Hp : 0 < 2 ^ 1074) by (apply Z.pow_pos_nonneg; lia).
  rewrite (Qfloor_comp _ (Qmake (Z.pos m * 2 ^ (e + 1074) * f)
                            (Z.to_pos (2 ^ 1074)))).
  - unfold Qfloor. rewrite Z2Pos.id by exact Hp. reflexivity.
  - rewrite (Qpower2_offset e 1074) by lia.
    rewrite (Qmake_Qdiv _ (Z.to_pos (2 ^ 1074))), Z2Pos.id by exact Hp.
    rewrite !inject_Z_mult. field.
    intros Hz. apply (proj1 (inject_Z_injective (2 ^ 1074) 0)) in Hz. lia.
Qed.

Lemma to_int_finite m e :
  -1074 <= e ->
  Float.to_int (S754_finite false m e)
  = Returned (Qfloor (F2Q (S754_finite false m e) * inject_Z 1)).
Proof.
  intros He. rewrite Qfloor_scaled by exact He. cbn [Float.to_int cond_Zopp].
  rewrite (shiftl_offset _ e 1074) by lia. rewrite Z.mul_1_r. reflexivity.
Qed.

Lemma parse_file_size_unmatched token :
  size_fields (Str.strip token) = None -> parse_file_size token = Returned 0.
Proof.
  intros H. unfold parse_file_size. rewrite size_re_match, H. reflexivity.
Qed.

Lemma parse_file_size_fields token v u :
  size_fields (Str.strip token) = Some (v, u) ->
  parse_file_size token
  = bind (Float.of_string v) (fun x => Float.to_int (scale x (unit_group u))).
Proof.
  intros H. unfold parse_file_size. rewrite size_re_match, H.
  destruct u; reflexivity.
Qed.

Lemma size_fields_unit s v c :
  size_fields s = Some (v, Some c) -> Re.unit_letter c = true.
Proof.
  unfold size_fields. destruct (span Re.digit_or_dot s) as [w r].
  destruct w as [|w0 w]; [discriminate|]. unfold unit_and_end.
  destruct r as [|a r]; [discriminate|].
  destruct (Re.unit_letter a) eqn:Ha.
  - destruct (at_end (skip_B r)); [|discriminate]. intros [= _ <-]. exact Ha.
  - destruct (at_end (skip_B (String a r))); discriminate.
Qed.

(** The four factors are powers of two, and exact as floats. *)
Lemma unit_factor c :
  Re.unit_letter c = true ->
  exists j,
    0 <= j <= 40
    /\ multiplier (Some c) = 2 ^ j
    /\ Float.of_int (multiplier (Some c))
       = S754_finite false 4503599627370496 (j - 52).
Proof.
  unfold Re.unit_letter. intros H.
  repeat (apply orb_true_iff in H as [H|H]);
    apply Ascii.eqb_eq in H; subst c;
    [exists 10|exists 20|exists 30|exists 40];
    (split; [lia|split; vm_compute; reflexivity]).
Qed.

Lemma bounded_exponent m e : bounded 53 1024 m e = true -> -1074 <= e.
Proof.
  unfold bounded, canonical_mantissa. intros H.
  apply andb_true_iff in H as [H _]. apply Z.eqb_eq in H.
  rewrite fexp64_eq in H. lia.
Qed.

Lemma Qfloor_zero f : Qfloor (0 * inject_Z f) = 0.
Proof. unfold Qfloor. simpl. apply Z.div_0_l. lia. Qed.

(** The scaled value, when it is finite, truncates to the integer part of
    the exact product. *)
Lemma scaled_value_truncated x u :
  valid_nonneg x ->
  match u with Some c => Re.unit_letter c = true | None => True end ->
  is_finite (scale x (unit_group u)) = true ->
  Float.to_int (scale x (unit_group u))
  = Returned (Qfloor (F2Q x * inject_Z (multiplier u))).
Proof.
  intros Hx Hu Hfin. destruct u as [c|].
  - destruct (unit_factor c Hu) as (j & Hj & Hmul & Hfloat).
    change (scale x (unit_group (Some c)))
      with (Float.mul x (Float.of_int (multiplier (Some c)))) in *.
    rewrite Hfloat in *. rewrite Hmul.
    unfold Float.mul, Float.prec, Float.emax in *.
    destruct x as [[]|[]|  |[] m e]; cbn [valid_nonneg] in Hx;
      try contradiction; try discriminate Hfin.
    + cbn [SFmul xorb Float.to_int F2Q]. rewrite Qfloor_zero. reflexivity.
    + destruct (mul_pow2_exact m e j Hx ltac:(lia)) as (m' & e' & Hval & He' & Hres).
      rewrite Hres in Hfin |- *.
      destruct (e' <=? 1024 - 53); [|discriminate Hfin].
      rewrite to_int_finite by apply He'.
      rewrite !Qfloor_scaled
        by first [apply He' | eapply bounded_exponent, Hx].
      do 2 f_equal. rewrite Hval, Z.mul_1_r, <- Z.mul_assoc.
      rewrite <- Z.pow_add_r by (apply bounded_exponent in Hx; lia).
      do 2 f_equal. lia.
  - cbn [unit_group scale] in *.
    destruct x as [[]|[]|  |[] m e]; cbn [valid_nonneg] in Hx;
      try contradiction; try discriminate Hfin.
    + cbn [Float.to_int F2Q]. rewrite Qfloor_zero. reflexivity.
    + apply to_int_finite. eauto using bounded_exponent.
Qed.

End SizeValue.

(** ** Tokens in the recognized format *)

Section RecognizedFormat.

Lemma span_all cls s : all_chars cls (fst (span cls s)) = true.
Proof.
  induction s as [|c s IH]; simpl; [reflexivity|].
  destruct (cls c) eqn:Hc; [|reflexivity].
  destruct (span cls s) as [v r]. simpl in *. rewrite Hc, IH. reflexivity.
Qed.

Lemma span_stops cls s : stops cls (snd (span cls s)).
Proof.
  induction s as [|c s IH]; simpl; [exact I|].
  destruct (cls c) eqn:Hc; [|exact Hc].
  destruct (span cls s) as [v r]. exact IH.
Qed.

Lemma span_exact cls a b :
  all_chars cls a = true -> stops cls b -> span cls (a ++ b) = (a, b).
Proof.
  intros Ha Hb. induction a as [|c a IH].
  - rewrite append_nil_l. destruct b as [|c b]; [reflexivity|].
    simpl in *. rewrite Hb. reflexivity.
  - simpl in Ha. apply andb_true_iff in Ha as [Hc Ha].
    rewrite append_cons. simpl. rewrite Hc, (IH Ha). reflexivity.
Qed.

Lemma all_chars_append cls a b :
  all_chars cls (a ++ b) = all_chars cls a && all_chars cls b.
Proof.
  induction a as [|c a IH]; [reflexivity|].
  rewrite append_cons. simpl. rewrite IH, andb_assoc. reflexivity.
Qed.

Lemma all_chars_weaken (p q : ascii -> bool) s :
  (forall c, p c = true -> q c = true) ->
  all_chars p s = true -> all_chars q s = true.
Proof.
  intros Hpq. induction s as [|c s IH]; simpl; [reflexivity|].
  intros H. apply andb_true_iff in H as [Hc Hs].
  rewrite (Hpq c Hc), (IH Hs). reflexivity.
Qed.

Lemma read_digits_exact a b : forall acc n,
  all_chars Str.isdecimal a = true -> stops Str.isdecimal b ->
  exists d,
    Float.read_digits acc n (a ++ b) = (d, (n + String.length a)%nat, b).
Proof.
  induction a as [|c a IH]; intros acc n Ha Hb.
  - rewrite append_nil_l. exists acc. simpl. rewrite Nat.add_0_r.
    destruct b as [|c b]; [reflexivity|]. simpl in *. rewrite Hb. reflexivity.
  - simpl in Ha. apply andb_true_iff in Ha as [Hc Ha].
    rewrite append_cons. simpl. rewrite Hc.
    destruct (IH (10 * acc + Float.digit_value c) (S n) Ha Hb) as (d & Hd).
    exists d. rewrite Hd. do 2 f_equal. lia.
Qed.

Lemma recognized_fraction_spec r1 :
  let '(fp, r) := recognized_fraction r1 in
  r1 = fp ++ r
  /\ (fp = EmptyString
      \/ exists f, fp = String "." f /\ f <> EmptyString
                   /\ all_chars Str.isdecimal f = true).
Proof.
  unfold recognized_fraction. destruct r1 as [|c r']; [auto|].
  destruct (Ascii.eqb_spec c ".") as [->|Hne]; [|auto].
  pose proof (span_append Str.isdecimal r') as Happ.
  pose proof (span_all Str.isdecimal r') as Hall.
  destruct (span Str.isdecimal r') as [[|f0 f] r'']; cbn [fst snd] in *;
    [auto|].
  split.
  - rewrite Happ at 1. reflexivity.
  - right. exists (String f0 f). repeat split; [discriminate|exact Hall].
Qed.

Lemma recognized_tail_spec r u :
  recognized_tail r = Some u ->
  unit_and_end r = Some u /\ stops Re.digit_or_dot r.
Proof.
  unfold recognized_tail, unit_and_end.
  destruct r as [|c r]; [intros [= <-]; split; [reflexivity|exact I]|].
  cbn [stops]. destruct (Re.unit_letter c) eqn:Hu.
  - destruct (unit_letter_cases c Hu) as (_ & _ & Hdd).
    destruct r as [|b [|b' r]]; try discriminate.
    + intros [= <-]. split; [reflexivity|exact Hdd].
    + destruct (Ascii.eqb b "B") eqn:Hb; [|discriminate].
      intros [= <-]. cbn [skip_B]. rewrite Hb. split; [reflexivity|exact Hdd].
  - destruct r as [|b r]; [|discriminate].
    destruct (Ascii.eqb_spec c "B") as [->|Hne]; [|discriminate].
    intros [= <-]. split; reflexivity.
Qed.

(** A token in the recognized format matches the pattern of the code, with
    the same number and unit, and [float] accepts its number. *)
Lemma recognized_fields_accepted s v u :
  recognized_fields s = Some (v, u) ->
  size_fields s = Some (v, u)
  /\ exists x, Float.of_string v = Returned x.
Proof.
  unfold recognized_fields.
  pose proof (span_append Str.isdecimal s) as Happ.
  pose proof (span_all Str.isdecimal s) as Hall.
  pose proof (span_stops Str.isdecimal s) as Hstop.
  destruct (span Str.isdecimal s) as [ip r1]. cbn [fst snd] in *.
  destruct ip as [|i0 ip]; [discriminate|].
  pose proof (recognized_fraction_spec r1) as Hfrac.
  destruct (recognized_fraction r1) as [fp r]. destruct Hfrac as [Hr1 Hfp].
  destruct (recognized_tail r) as [u'|] eqn:Htail; [|discriminate].
  intros [= <- <-]. apply recognized_tail_spec in Htail as [Hend Hdd].
  assert (Hdigit_dd : forall c, Str.isdecimal c = true ->
                                Re.digit_or_dot c = true)
    by (intros c Hc; unfold Re.digit_or_dot; rewrite Hc; reflexivity).
  split.
  - unfold size_fields.
    rewrite Happ, Hr1, <- append_assoc, span_exact; [| |exact Hdd].
    + rewrite append_cons, Hend. reflexivity.
    + rewrite all_chars_append.
      rewrite (all_chars_weaken _ _ _ Hdigit_dd Hall).
      destruct Hfp as [->|(f & -> & _ & Hf)]; [reflexivity|].
      simpl. apply (all_chars_weaken _ _ _ Hdigit_dd Hf).
  - unfold Float.of_string.
    destruct Hfp as [->|(f & -> & Hfne & Hf)].
    + destruct (read_digits_exact (String i0 ip) EmptyString 0 0 Hall I)
        as (d & Hd).
      rewrite Hd. simpl. eauto.
    + destruct (read_digits_exact (String i0 ip) (String "." f) 0 0 Hall)
        as (d & Hd); [reflexivity|].
      destruct (read_digits_exact f EmptyString d 0 Hf I) as (d' & Hd').
      rewrite append_nil_r in Hd'. rewrite Hd. simpl. rewrite Hd'.
      eauto.
Qed.

End RecognizedFormat.

(** ** What [parse_file_size] returns *)

Section ParseFileSize.

Lemma multiplier_nonneg u :
  match u with Some c => Re.unit_letter c = true | None => True end ->
  0 <= multiplier u.
Proof.
  destruct u as [c|]; [|intros _; unfold multiplier; simpl; lia].
  intros Hc. destruct (unit_factor c Hc) as (j & Hj & -> & _).
  apply Z.pow_nonneg. lia.
Qed.

Lemma Qfloor_scaled_nonneg x f :
  valid_nonneg x -> 0 <= f -> 0 <= Qfloor (F2Q x * inject_Z f).
Proof.
  intros Hx Hf.
  destruct x as [[]|[]|  |[] m e]; cbn [valid_nonneg] in Hx;
    try contradiction; try (cbn [F2Q]; rewrite Qfloor_zero; lia).
  rewrite Qfloor_scaled by eauto using bounded_exponent.
  apply bounded_exponent in Hx.
  apply Z.div_pos; [|apply Z.pow_pos_nonneg; lia].
  apply Z.mul_nonneg_nonneg; [|exact Hf].
  apply Z.mul_nonneg_nonneg; [lia|apply Z.pow_nonneg; lia].
Qed.

Lemma digit_value_le c : Str.isdecimal c = true -> Float.digit_value c <= 9.
Proof.
  unfold Str.isdecimal, Str.in_range, Float.digit_value. intros H.
  apply andb_true_iff in H as [_ H]. apply N.leb_le in H. lia.
Qed.

(** The number read is below the power of ten of the digits read. *)
Lemma read_digits_bound s : forall acc n,
  0 <= acc ->
  let '(d, n', r) := Float.read_digits acc n s in
  d + 1 <= (acc + 1) * 10 ^ Z.of_nat (n' - n)
  /\ (n <= n')%nat
  /\ (n' - n + String.length r <= String.length s)%nat.
Proof.
  induction s as [|c s IH]; intros acc n Hacc; simpl.
  - rewrite Nat.sub_diag. simpl. lia.
  - destruct (Str.isdecimal c) eqn:Hc.
    + pose proof (digit_value_nonneg c Hc). pose proof (digit_value_le c Hc).
      specialize (IH (10 * acc + Float.digit_value c) (S n) ltac:(lia)).
      destruct (Float.read_digits (10 * acc + Float.digit_value c) (S n) s)
        as [[d n'] r].
      destruct IH as (Hd & Hn & Hlen). split; [|lia].
      replace (Z.of_nat (n' - n)) with (Z.succ (Z.of_nat (n' - S n))) by lia.
      rewrite Z.pow_succ_r by lia.
      assert (0 < 10 ^ Z.of_nat (n' - S n)) by (apply Z.pow_pos_nonneg; lia).
      nia.
    + rewrite Nat.sub_diag. simpl. lia.
Qed.

Lemma of_string_decimal s x :
  Float.of_string s = Returned x ->
  exists d k,
    0 <= d < 10 ^ Z.of_nat (String.length s) /\ x = Float.of_decimal d k.
Proof.
  unfold Float.of_string.
  pose proof (read_digits_nonneg s 0 0 ltac:(lia)) as Hip.
  pose proof (read_digits_bound s 0 0 ltac:(lia)) as Hb.
  destruct (Float.read_digits 0 0 s) as [[ip ni] r]. cbn [fst] in Hip.
  destruct Hb as (Hd & _ & Hlen). rewrite Nat.sub_0_r in *.
  assert (Hpow : forall a b : nat,
             (a <= b)%nat -> 10 ^ Z.of_nat a <= 10 ^ Z.of_nat b)
    by (intros; apply Z.pow_le_mono_r; lia).
  destruct r as [|c r].
  - destruct (Nat.eqb ni 0); [discriminate|]. intros [= <-].
    exists ip, 0%nat. split; [|reflexivity].
    pose proof (Hpow ni (String.length s) ltac:(lia)). lia.
  - destruct (Ascii.eqb c "."); [|discriminate].
    pose proof (read_digits_nonneg r ip 0 Hip) as Hd0.
    pose proof (read_digits_bound r ip 0 Hip) as Hb.
    destruct (Float.read_digits ip 0 r) as [[d nf] r']. cbn [fst] in Hd0.
    destruct Hb as (Hd' & _ & Hlen'). rewrite Nat.sub_0_r in *.
    destruct r'; [|discriminate].
    destruct (Nat.eqb (ni + nf) 0); [discriminate|]. intros [= <-].
    exists d, nf. split; [|reflexivity]. simpl in Hlen.
    pose proof (Hpow (ni + nf)%nat (String.length s) ltac:(lia)) as Hle.
    rewrite Nat2Z.inj_add, Z.pow_add_r in Hle by lia.
    assert (0 < 10 ^ Z.of_nat nf) by (apply Z.pow_pos_nonneg; lia).
    nia.
Qed.

Lemma Zdigits2_below m n : 0 <= m < 2 ^ n -> 0 <= n -> Zdigits2 m <= n.
Proof.
  intros [Hm Hlt] Hn. destruct (Z.eq_dec m 0) as [->|Hne]; [simpl; lia|].
  pose proof (Zdigits2_bounds m ltac:(lia)) as [Hlo _].
  destruct (Z.le_gt_cases (Zdigits2 m) n) as [|Hgt]; [assumption|exfalso].
  assert (2 ^ n <= 2 ^ (Zdigits2 m - 1)) by (apply Z.pow_le_mono_r; lia).
  lia.
Qed.

(** A number of at most 290 characters is far from the largest float. *)
Lemma of_string_small s x :
  Float.of_string s = Returned x -> (String.length s <= 290)%nat ->
  exponent_below 912 x.
Proof.
  intros Hx Hlen. destruct (of_string_decimal s x Hx) as (d & k & Hd & ->).
  destruct (of_decimal_valid d k ltac:(lia)) as [_ Hb].
  eapply exponent_below_mono, Hb.
  assert (Hpow : 10 ^ Z.of_nat (String.length s) <= 10 ^ 290)
    by (apply Z.pow_le_mono_r; lia).
  assert (Hlt : 10 ^ 290 < 2 ^ 964) by (apply Z.ltb_lt; vm_compute; reflexivity).
  pose proof (Zdigits2_below d 964 ltac:(lia) ltac:(lia)).
  rewrite fexp64_eq. lia.
Qed.

(** Scaling a float that is far from the largest one gives a finite float. *)
Lemma scale_small_finite x u :
  valid_nonneg x -> exponent_below 912 x ->
  match u with Some c => Re.unit_letter c = true | None => True end ->
  is_finite (scale x (unit_group u)) = true.
Proof.
  intros Hx Hsmall Hu. destruct u as [c|].
  - destruct (unit_factor c Hu) as (j & Hj & Hmul & Hfloat).
    change (scale x (unit_group (Some c)))
      with (Float.mul x (Float.of_int (multiplier (Some c)))).
    rewrite Hfloat. unfold Float.mul, Float.prec, Float.emax.
    destruct x as [[]|[]|  |[] m e]; cbn [valid_nonneg exponent_below] in *;
      try contradiction; try lia; [reflexivity|].
    destruct (mul_pow2_exact m e j Hx ltac:(lia)) as (m' & e' & _ & He' & ->).
    destruct (Z.leb_spec e' (1024 - 53)); [reflexivity|lia].
  - cbn [unit_group scale].
    destruct x as [[]|[]|  |[] m e]; cbn [valid_nonneg exponent_below] in *;
      try contradiction; try lia; reflexivity.
Qed.

Lemma size_fields_unit_ok s v u :
  size_fields s = Some (v, u) ->
  match u with Some c => Re.unit_letter c = true | None => True end.
Proof.
  destruct u as [c|]; [apply size_fields_unit|intros _; exact I].
Qed.

(** The result for a token that matches the pattern of the code and whose
    number [float] accepts, when the scaled value is finite. *)
Lemma parse_file_size_value token v u x :
  size_fields (Str.strip token) = Some (v, u) ->
  Float.of_string v = Returned x ->
  is_finite (scale x (unit_group u)) = true ->
  parse_file_size token
  = Returned (Qfloor (F2Q x * inject_Z (multiplier u))).
Proof.
  intros Hfields Hfloat Hfin.
  rewrite (parse_file_size_fields token v u Hfields), Hfloat. cbn [bind].
  apply scaled_value_truncated;
    [eapply of_string_valid, Hfloat
    |eapply size_fields_unit_ok, Hfields
    |exact Hfin].
Qed.

(** C1, as the code has it: a token whose trimmed content does not match
    the pattern of the code (a run of digits and dots, a unit letter or
    none, a [B] or none) gives 0; for a token in the recognized format,
    [float] accepts the number and the result is an integer that is not
    negative, provided the scaled value is a finite float, which it is for
    every number of at most 290 characters. *)
Theorem parse_file_size_fallback_and_numbers token :
  (size_fields (Str.strip token) = None -> parse_file_size token = Returned 0)
  /\ (forall v u,
         recognized_fields (Str.strip token) = Some (v, u) ->
         exists x,
           Float.of_string v = Returned x
           /\ (is_finite (scale x (unit_group u)) = true ->
               exists z, 0 <= z /\ parse_file_size token = Returned z)
           /\ ((String.length v <= 290)%nat ->
               is_finite (scale x (unit_group u)) = true)).
Proof.
  split; [apply parse_file_size_unmatched|].
  intros v u Hrec.
  destruct (recognized_fields_accepted _ _ _ Hrec) as (Hfields & x & Hfloat).
  exists x. split; [exact Hfloat|]. split.
  - intros Hfin.
    exists (Qfloor (F2Q x * inject_Z (multiplier u))). split.
    + apply Qfloor_scaled_nonneg; [eapply of_string_valid, Hfloat|].
      eapply multiplier_nonneg, size_fields_unit_ok, Hfields.
    + apply (parse_file_size_value token v u x); assumption.
  - intros Hlen. apply scale_small_finite.
    + eapply of_string_valid, Hfloat.
    + eapply of_string_small; eassumption.
    + eapply size_fields_unit_ok, Hfields.
Qed.

Lemma parse_file_size_fallback_and_numbers_witness :
  (size_fields (Str.strip "garbage") = None
   /\ parse_file_size "garbage" = Returned 0)
  /\ (recognized_fields (Str.strip " 4.2M ") = Some ("4.2", Some "M"%char)
      /\ exists z, 0 <= z /\ parse_file_size " 4.2M " = Returned z).
Proof.
  split; (split; [reflexivity|]).
  - apply (proj1 (parse_file_size_fallback_and_numbers "garbage")).
    reflexivity.
  - destruct (proj2 (parse_file_size_fallback_and_numbers " 4.2M ")
                "4.2" (Some "M"%char) eq_refl) as (x & Hx & Hz & Hfin).
    apply Hz, Hfin. simpl. lia.
Defined.

(** C1 as the specification states it does not hold, for two reasons: a
    token with two decimal points matches the pattern of the code and
    [float] raises on it; and a token that is not in the recognized format,
    a number with a final point and no digit after it, does not give 0. *)
Lemma parse_file_size_raises_or_not_zero :
  parse_file_size "1.2.3" = Raised ValueError
  /\ (recognized_fields (Str.strip "5.") = None
      /\ parse_file_size "5." = Returned 5).
Proof. repeat split. Qed.

(** A number of 310 digits is beyond the floats: [int] raises on the
    infinity that [float] returns. *)
Lemma parse_file_size_overflow :
  parse_file_size (String "1" (replicate_char 309 "0"))
  = Raised OverflowError.
Proof. vm_compute. reflexivity. Qed.

(** C6: the five values of the specification; the factors 1024, 1024^2,
    1024^3 and 1024^4 for K, M, G and T; and in general the result is the
    integer part of the exact product of the number, as a float, and the
    factor: a truncation, as for 1.9K, which gives 1945 and not 1946. *)
Theorem parse_file_size_scales_and_truncates :
  (parse_file_size "4.2M" = Returned 4404019
   /\ parse_file_size "512" = Returned 512
   /\ parse_file_size "1G" = Returned 1073741824
   /\ parse_file_size "garbage" = Returned 0
   /\ parse_file_size "512B" = Returned 512
   /\ parse_file_size "1.9K" = Returned 1945)
  /\ (multiplier None = 1
      /\ multiplier (Some "K"%char) = 1024 ^ 1
      /\ multiplier (Some "M"%char) = 1024 ^ 2
      /\ multiplier (Some "G"%char) = 1024 ^ 3
      /\ multiplier (Some "T"%char) = 1024 ^ 4)
  /\ (forall token v u x,
         size_fields (Str.strip token) = Some (v, u) ->
         Float.of_string v = Returned x ->
         is_finite (scale x (unit_group u)) = true ->
         parse_file_size token
         = Returned (Qfloor (F2Q x * inject_Z (multiplier u)))).
Proof.
  split; [repeat split|]. split; [repeat split|].
  apply parse_file_size_value.
Qed.

Lemma parse_file_size_scales_and_truncates_witness :
  size_fields (Str.strip "4.2M") = Some ("4.2", Some "M"%char)
  /\ Float.of_string "4.2"
     = Returned (S754_finite false 4728779608739021 (-50))
  /\ parse_file_size "4.2M"
     = Returned
         (Qfloor (F2Q (S754_finite false 4728779608739021 (-50))
                  * inject_Z (multiplier (Some "M"%char)))).
Proof.
  split; [reflexivity|]. split; [reflexivity|].
  apply (proj2 (proj2 parse_file_size_scales_and_truncates)
           "4.2M" "4.2" (Some "M"%char));
    reflexivity.
Defined.

End ParseFileSize.

(** ** More on the statistics: the counters, one by one *)

Section Counters.

Lemma count_extension_insert d ext :
  count_extension d ext = <[ext := default 0 (d !! ext) + 1]> d.
Proof.
  unfold count_extension. destruct (d !! ext) as [v|] eqn:Hk.
  - rewrite Hk. reflexivity.
  - rewrite lookup_insert_eq, insert_insert_eq. reflexivity.
Qed.

(** The two loops that count extensions do the same to the dict. *)
Lemma analyze_entry_stats a e :
  extension_stats (analyze_entry a e) = count_frequency (extension_stats a) e.
Proof.
  unfold analyze_entry, count_frequency. cbn [extension_stats].
  destruct (extension e); [reflexivity|apply count_extension_insert].
Qed.

Lemma analyze_loop_stats entries : forall a,
  extension_stats (fold_left analyze_entry entries a)
  = fold_left count_frequency entries (extension_stats a).
Proof.
  induction entries as [|e entries IH]; intros a; simpl; [reflexivity|].
  rewrite IH, analyze_entry_stats. reflexivity.
Qed.

(** What the counting loop does to one key. *)
Lemma count_frequency_lookup d e ext :
  count_frequency d e !! ext
  = if has_this_extension ext e && negb (String.eqb ext EmptyString)
    then Some (default 0 (d !! ext) + 1)
    else d !! ext.
Proof.
  unfold count_frequency, has_this_extension.
  destruct (extension e) as [|c x] eqn:He.
  - destruct (String.eqb_spec EmptyString ext) as [<-|Hne]; reflexivity.
  - destruct (String.eqb_spec (String c x) ext) as [<-|Hne].
    + rewrite lookup_insert_eq. reflexivity.
    + rewrite lookup_insert_ne by exact Hne. reflexivity.
Qed.

Lemma count_nonneg {A} (p : A -> bool) l : 0 <= count p l.
Proof. unfold count. lia. Qed.

Lemma counting_loop_lookup entries ext : forall d,
  ext <> EmptyString ->
  fold_left count_frequency entries d !! ext
  = if count (has_this_extension ext) entries =? 0 then d !! ext
    else Some (default 0 (d !! ext) + count (has_this_extension ext) entries).
Proof.
  induction entries as [|e entries IH]; intros d Hext; simpl.
  - reflexivity.
  - rewrite IH by exact Hext. rewrite count_cons, !count_frequency_lookup.
    pose proof (count_nonneg (has_this_extension ext) entries) as Hc.
    destruct (String.eqb_spec ext EmptyString) as [|_]; [contradiction|].
    destruct (has_this_extension ext e); cbn [andb negb].
    + destruct (Z.eqb_spec (count (has_this_extension ext) entries) 0)
        as [Hz|Hz];
        destruct (Z.eqb_spec (1 + count (has_this_extension ext) entries) 0);
        try lia; cbn [from_option id]; f_equal; lia.
    + rewrite Z.add_0_l. reflexivity.
Qed.

Lemma counting_loop_empty_key entries : forall d,
  fold_left count_frequency entries d !! EmptyString = d !! EmptyString.
Proof.
  induction entries as [|e entries IH]; intros d; simpl; [reflexivity|].
  rewrite IH, count_frequency_lookup. simpl. rewrite andb_false_r.
  reflexivity.
Qed.

Lemma extension_stats_key entries ext :
  extension_stats (analyze_patterns entries) !! ext
  = if String.eqb ext EmptyString
       || (count (has_this_extension ext) entries =? 0)
    then None
    else Some (count (has_this_extension ext) entries).
Proof.
  unfold analyze_patterns. rewrite analyze_loop_stats. cbn [extension_stats].
  destruct (String.eqb_spec ext EmptyString) as [->|Hne].
  - rewrite counting_loop_empty_key. reflexivity.
  - rewrite counting_loop_lookup by exact Hne. cbn [orb].
    destruct (count (has_this_extension ext) entries =? 0);
      [reflexivity|]. rewrite lookup_empty. reflexivity.
Qed.

(** X1: the counter of an extension is the number of entries that have
    it; an extension that no entry has is not a key, and neither is the
    empty extension. *)
Theorem extension_stats_lookup entries ext :
  extension_stats (analyze_patterns entries) !! ext
  = if String.eqb ext EmptyString
       || (count (has_this_extension ext) entries =? 0)
    then None
    else Some (count (has_this_extension ext) entries).
Proof. apply extension_stats_key. Qed.

Lemma extension_counts_are_extension_stats_aux entries :
  extension_stats (analyze_patterns entries) = extension_counts entries.
Proof.
  unfold extension_counts, analyze_patterns. rewrite analyze_loop_stats.
  reflexivity.
Qed.

(** X2: the frequencies drawn in the word cloud are the extension
    statistics of the report: the two loops build the same dict. *)
Theorem extension_counts_are_extension_stats entries :
  extension_counts entries = extension_stats (analyze_patterns entries).
Proof. symmetry. apply extension_counts_are_extension_stats_aux. Qed.

End Counters.

(** ** The report does not depend on the order of the entries *)

Section OrderAndConcatenation.

Lemma sum_sizes_from entries : forall a,
  fold_left (fun acc entry => acc + size entry) entries a
  = a + sum_sizes entries.
Proof.
  unfold sum_sizes.
  induction entries as [|e entries IH]; intros a; simpl; [lia|].
  rewrite IH, (IH (0 + size e)). lia.
Qed.

Lemma sum_sizes_cons e entries :
  sum_sizes (e :: entries) = size e + sum_sizes entries.
Proof. unfold sum_sizes at 1. simpl. apply sum_sizes_from. Qed.

Lemma sum_sizes_app a b : sum_sizes (a ++ b) = sum_sizes a + sum_sizes b.
Proof.
  induction a as [|e a IH]; [reflexivity|].
  rewrite <- app_comm_cons, !sum_sizes_cons, IH. lia.
Qed.

Lemma count_app {A} (p : A -> bool) (a b : list A) :
  count p (a ++ b) = count p a + count p b.
Proof.
  induction a as [|x a IH]; [reflexivity|].
  rewrite <- app_comm_cons, !count_cons, IH. lia.
Qed.

Lemma count_permutation {A} (p : A -> bool) (l l' : list A) :
  Permutation l l' -> count p l = count p l'.
Proof.
  induction 1 as [|x l l' _ IH|x y l|l l' l'' _ IH1 _ IH2];
    rewrite ?count_cons; lia.
Qed.

Lemma sum_sizes_permutation l l' :
  Permutation l l' -> sum_sizes l = sum_sizes l'.
Proof.
  induction 1 as [|x l l' _ IH|x y l|l l' l'' _ IH1 _ IH2];
    rewrite ?sum_sizes_cons; lia.
Qed.

(** The four fields of the report, each said directly. *)
Lemma analyze_patterns_fields entries :
  analyze_patterns entries
  = mkAnalysisResult (Z.of_nat (length entries)) (sum_sizes entries)
      (extension_counts entries)
      (mkSizeDistribution (count is_small entries) (count is_medium entries)
         (count is_large entries)).
Proof.
  rewrite <- extension_counts_are_extension_stats_aux.
  unfold analyze_patterns.
  match goal with
  | |- context [fold_left analyze_entry entries ?a] =>
      destruct (analyze_loop_invariant entries a) as (Hf & Hs & _);
      destruct (analyze_loop_buckets entries a) as (Hsm & Hme & Hla);
      set (r := fold_left analyze_entry entries a) in *
  end.
  cbn [total_files total_size size_distribution small medium large] in *.
  destruct r as [tf ts st [sm me la]].
  cbn [total_files total_size size_distribution small medium large
       extension_stats] in *.
  subst. reflexivity.
Qed.

(** X3: the report is the same for the same entries in another order. *)
Theorem analyze_patterns_permutation entries entries' :
  Permutation entries entries' ->
  analyze_patterns entries = analyze_patterns entries'.
Proof.
  intros Hperm. rewrite !analyze_patterns_fields.
  rewrite (Permutation_length Hperm), (sum_sizes_permutation _ _ Hperm).
  rewrite !(count_permutation _ _ _ Hperm). f_equal.
  apply map_eq. intros ext.
  rewrite <- !extension_counts_are_extension_stats_aux.
  unfold analyze_patterns. rewrite !analyze_loop_stats. cbn [extension_stats].
  destruct (String.eqb_spec ext EmptyString) as [->|Hne].
  - rewrite !counting_loop_empty_key. reflexivity.
  - rewrite !counting_loop_lookup by exact Hne.
    rewrite (count_permutation _ _ _ Hperm). reflexivity.
Qed.

Lemma analyze_patterns_permutation_witness :
  Permutation [mkFileEntry "a.txt" 10 ".txt"; mkFileEntry "b" 2097152 ""]
    [mkFileEntry "b" 2097152 ""; mkFileEntry "a.txt" 10 ".txt"]
  /\ analyze_patterns
       [mkFileEntry "a.txt" 10 ".txt"; mkFileEntry "b" 2097152 ""]
     = analyze_patterns
         [mkFileEntry "b" 2097152 ""; mkFileEntry "a.txt" 10 ".txt"].
Proof.
  split; [apply perm_swap|].
  apply analyze_patterns_permutation, perm_swap.
Defined.

(** X4: the report of two sequences of entries put one after the other
    adds up, field by field and counter by counter, the reports of the
    two. *)
Theorem analyze_patterns_app a b :
  let r := analyze_patterns (a ++ b) in
  let ra := analyze_patterns a in
  let rb := analyze_patterns b in
  total_files r = total_files ra + total_files rb
  /\ total_size r = total_size ra + total_size rb
  /\ small (size_distribution r)
     = small (size_distribution ra) + small (size_distribution rb)
  /\ medium (size_distribution r)
     = medium (size_distribution ra) + medium (size_distribution rb)
  /\ large (size_distribution r)
     = large (size_distribution ra) + large (size_distribution rb)
  /\ forall ext,
       default 0 (extension_stats r !! ext)
       = default 0 (extension_stats ra !! ext)
         + default 0 (extension_stats rb !! ext).
Proof.
  cbv zeta. rewrite !analyze_patterns_fields.
  cbn [total_files total_size size_distribution small medium large
       extension_stats].
  rewrite length_app, Nat2Z.inj_add, sum_sizes_app, !count_app.
  repeat split. intros ext. unfold extension_counts.
  destruct (String.eqb_spec ext EmptyString) as [->|Hne].
  - rewrite !counting_loop_empty_key, lookup_empty. reflexivity.
  - rewrite !counting_loop_lookup by exact Hne. rewrite count_app.
    pose proof (count_nonneg (has_this_extension ext) a).
    pose proof (count_nonneg (has_this_extension ext) b).
    rewrite lookup_empty.
    destruct (Z.eqb_spec (count (has_this_extension ext) a) 0);
      destruct (Z.eqb_spec (count (has_this_extension ext) b) 0);
      destruct (Z.eqb_spec (count (has_this_extension ext) a
                            + count (has_this_extension ext) b) 0);
      cbn [from_option id]; lia.
Qed.

End OrderAndConcatenation.

(** ** When [parse_file_size] raises *)

Section ParseOutcomes.

Lemma count_class_append cls a b :
  count_class cls (a ++ b) = (count_class cls a + count_class cls b)%nat.
Proof.
  induction a as [|c a IH]; [reflexivity|].
  rewrite append_cons. simpl. rewrite IH. lia.
Qed.

Lemma count_class_all cls s :
  all_chars cls s = true -> count_class cls s = String.length s.
Proof.
  induction s as [|c s IH]; simpl; [reflexivity|].
  intros H. apply andb_true_iff in H as [-> H]. rewrite (IH H). reflexivity.
Qed.

Lemma count_class_none (p q : ascii -> bool) s :
  (forall c, p c = true -> q c = false) ->
  all_chars p s = true -> count_class q s = O.
Proof.
  intros Hpq. induction s as [|c s IH]; simpl; [reflexivity|].
  intros H. apply andb_true_iff in H as [Hc H].
  rewrite (Hpq c Hc), (IH H). reflexivity.
Qed.

Lemma digit_not_dot c : Str.isdecimal c = true -> is_dot c = false.
Proof.
  intros H. destruct c as [[] [] [] [] [] [] [] []];
    try discriminate H; reflexivity.
Qed.

Lemma dot_when_not_digit c :
  Re.digit_or_dot c = true -> Str.isdecimal c = false -> c = "."%char.
Proof.
  unfold Re.digit_or_dot. intros H Hd. rewrite Hd in H.
  apply Ascii.eqb_eq, H.
Qed.

(** A string of digits and dots splits into its leading digits and a rest
    that is empty or starts with a dot. *)
Lemma digits_then_dot v :
  all_chars Re.digit_or_dot v = true ->
  exists a r,
    v = a ++ r /\ all_chars Str.isdecimal a = true
    /\ all_chars Re.digit_or_dot r = true
    /\ (r = EmptyString \/ exists r', r = String "." r').
Proof.
  intros Hv.
  pose proof (span_append Str.isdecimal v) as Happ.
  pose proof (span_all Str.isdecimal v) as Hall.
  pose proof (span_stops Str.isdecimal v) as Hstop.
  destruct (span Str.isdecimal v) as [a r]. cbn [fst snd] in *.
  exists a, r. rewrite Happ, all_chars_append in Hv.
  apply andb_true_iff in Hv as [_ Hr].
  repeat split; try assumption.
  destruct r as [|c r']; [left; reflexivity|right].
  simpl in Hr, Hstop. apply andb_true_iff in Hr as [Hc _].
  rewrite (dot_when_not_digit c Hc Hstop). eauto.
Qed.

Lemma stops_after_digits r :
  r = EmptyString \/ (exists r', r = String "." r') -> stops Str.isdecimal r.
Proof. intros [->|(r' & ->)]; [exact I|reflexivity]. Qed.

(** [float] refuses a string of digits and dots exactly when it has two
    dots or more, or no digit; and then the exception is a [ValueError]. *)
Lemma of_string_refuses v :
  all_chars Re.digit_or_dot v = true ->
  (Float.of_string v = Raised ValueError
   <-> (2 <= count_class is_dot v)%nat
       \/ count_class Str.isdecimal v = O)
  /\ (forall e, Float.of_string v = Raised e -> e = ValueError).
Proof.
  intros Hv.
  destruct (digits_then_dot v Hv) as (a & r & -> & Ha & Hr & Hshape).
  unfold Float.of_string.
  destruct (read_digits_exact a r 0 0 Ha (stops_after_digits r Hshape))
    as (d & ->).
  rewrite !count_class_append, (count_class_all _ a Ha).
  rewrite (count_class_none _ _ a digit_not_dot Ha).
  destruct Hshape as [->|(r' & ->)].
  - simpl. rewrite Nat.add_0_r.
    destruct a as [|c a]; simpl; split; try (split; intros; try discriminate);
      try congruence; try lia; auto.
  - cbn [count_class].
    change (Ascii.eqb "." ".") with true. change (is_dot ".") with true.
    change (Str.isdecimal ".") with false. cbn iota.
    simpl in Hr.
    destruct (digits_then_dot r' Hr) as (b & r'' & -> & Hb & Hr'' & Hshape).
    destruct (read_digits_exact b r'' d 0 Hb (stops_after_digits r'' Hshape))
      as (d' & ->).
    rewrite !count_class_append, (count_class_all _ b Hb).
    rewrite (count_class_none _ _ b digit_not_dot Hb).
    destruct Hshape as [->|(r3 & ->)].
    + simpl. rewrite !Nat.add_0_r.
      destruct (Nat.eqb_spec (String.length a + String.length b) 0);
        split; try (split; intros; try discriminate);
        try congruence; try lia; auto.
    + cbn [count_class]. change (is_dot ".") with true. cbn iota.
      split; [split; [intros _; left; lia|reflexivity]|congruence].
Qed.

Lemma size_fields_number s v u :
  size_fields s = Some (v, u) -> all_chars Re.digit_or_dot v = true.
Proof.
  unfold size_fields. pose proof (span_all Re.digit_or_dot s) as Hall.
  destruct (span Re.digit_or_dot s) as [w r]. cbn [fst] in Hall.
  destruct w as [|w0 w]; [discriminate|].
  destruct (unit_and_end r); [|discriminate]. intros [= <- _]. exact Hall.
Qed.

(** [int] of the scaled value: an integer that is not negative when the
    value is finite, an [OverflowError] when it is not. *)
Lemma to_int_scale_outcome x u :
  valid_nonneg x ->
  match u with Some c => Re.unit_letter c = true | None => True end ->
  if is_finite (scale x (unit_group u))
  then exists z, 0 <= z /\ Float.to_int (scale x (unit_group u)) = Returned z
  else Float.to_int (scale x (unit_group u)) = Raised OverflowError.
Proof.
  intros Hx Hu. destruct (is_finite (scale x (unit_group u))) eqn:Hfin.
  - rewrite (scaled_value_truncated x u Hx Hu Hfin). eexists.
    split; [|reflexivity].
    apply Qfloor_scaled_nonneg; [exact Hx|apply multiplier_nonneg, Hu].
  - destruct u as [c|].
    + destruct (unit_factor c Hu) as (j & Hj & Hmul & Hfloat).
      change (scale x (unit_group (Some c)))
        with (Float.mul x (Float.of_int (multiplier (Some c)))) in *.
      rewrite Hfloat in *. unfold Float.mul, Float.prec, Float.emax in *.
      destruct x as [[]|[]|  |[] m e]; cbn [valid_nonneg] in Hx;
        try contradiction; try discriminate Hfin; [reflexivity|].
      destruct (mul_pow2_exact m e j Hx ltac:(lia)) as (m' & e' & _ & _ & Hres).
      rewrite Hres in Hfin |- *.
      destruct (e' <=? 1024 - 53); [discriminate Hfin|reflexivity].
    + cbn [unit_group scale] in *.
      destruct x as [[]|[]|  |[] m e]; cbn [valid_nonneg] in Hx;
        try contradiction; try discriminate Hfin; reflexivity.
Qed.

(** The three outcomes on a token that matches the pattern. *)
Lemma parse_file_size_cases token v u :
  size_fields (Str.strip token) = Some (v, u) ->
  (exists z, 0 <= z /\ parse_file_size token = Returned z)
  \/ (parse_file_size token = Raised ValueError
      /\ Float.of_string v = Raised ValueError)
  \/ (parse_file_size token = Raised OverflowError
      /\ exists x, Float.of_string v = Returned x
           /\ is_finite (scale x (unit_group u)) = false).
Proof.
  intros Hf. rewrite (parse_file_size_fields token v u Hf).
  pose proof (of_string_refuses v (size_fields_number _ _ _ Hf)) as [_ Hexn].
  destruct (Float.of_string v) as [x|e] eqn:Hx; cbn [bind].
  - pose proof (to_int_scale_outcome x u (of_string_valid v x Hx)
                  (size_fields_unit_ok _ _ _ Hf)) as Hout.
    destruct (is_finite (scale x (unit_group u))) eqn:Hfin.
    + left. exact Hout.
    + right. right. split; [exact Hout|]. exists x. auto.
  - rewrite (Hexn e eq_refl). right. left. auto.
Qed.

Lemma parse_file_size_nonneg token z :
  parse_file_size token = Returned z -> 0 <= z.
Proof.
  destruct (size_fields (Str.strip token)) as [[v u]|] eqn:Hf.
  - destruct (parse_file_size_cases token v u Hf)
      as [(z' & Hz & ->)|[[-> _]|[-> _]]]; [|discriminate..].
    intros [= <-]. exact Hz.
  - rewrite (parse_file_size_unmatched token Hf). intros [= <-]. lia.
Qed.

Lemma parse_file_size_exceptions token e :
  parse_file_size token = Raised e -> e = ValueError \/ e = OverflowError.
Proof.
  destruct (size_fields (Str.strip token)) as [[v u]|] eqn:Hf.
  - destruct (parse_file_size_cases token v u Hf)
      as [(z' & Hz & ->)|[[-> _]|[-> _]]]; [discriminate|..];
      intros [= <-]; auto.
  - rewrite (parse_file_size_unmatched token Hf). discriminate.
Qed.

(** X5: [parse_file_size] returns an integer that is not negative, or
    raises one of two exceptions, on a token that matches the pattern: a
    [ValueError], exactly when the number of the token has two decimal
    points or more, or no digit; or else an [OverflowError], exactly when
    the scaled value is not a finite float. *)
Theorem parse_file_size_outcomes token :
  match parse_file_size token with
  | Returned z =>
      0 <= z
  | Raised e =>
      exists v u,
        size_fields (Str.strip token) = Some (v, u)
        /\ (e = ValueError \/ e = OverflowError)
  end
  /\ forall v u,
       size_fields (Str.strip token) = Some (v, u) ->
       (parse_file_size token = Raised ValueError
        <-> (2 <= count_class is_dot v)%nat
            \/ count_class Str.isdecimal v = O)
       /\ (parse_file_size token = Raised OverflowError
           <-> exists x, Float.of_string v = Returned x
                         /\ is_finite (scale x (unit_group u)) = false).
Proof.
  pose proof (parse_file_size_cases token) as Hmain.
  split.
  - destruct (size_fields (Str.strip token)) as [[v u]|] eqn:Hf.
    + destruct (Hmain v u eq_refl) as [(z & Hz & ->)|[[-> _]|[-> _]]];
        [exact Hz|exists v, u; auto..].
    + rewrite (parse_file_size_unmatched token Hf). lia.
  - intros v u Hf.
    pose proof (of_string_refuses v (size_fields_number _ _ _ Hf)) as [Hiff _].
    destruct (Hmain v u Hf)
      as [(z & _ & Hz)|[[Hp Hv]|(Hp & x & Hx & Hfin)]].
    + rewrite Hz. split; split; try discriminate.
      * intros Hcount. apply Hiff in Hcount.
        rewrite (parse_file_size_fields token v u Hf), Hcount in Hz.
        discriminate Hz.
      * intros (x & Hx & Hfin).
        rewrite (parse_file_size_fields token v u Hf), Hx in Hz.
        cbn [bind] in Hz.
        pose proof (to_int_scale_outcome x u (of_string_valid v x Hx)
                      (size_fields_unit_ok _ _ _ Hf)) as Hout.
        rewrite Hfin in Hout. congruence.
    + rewrite Hp. split; split; try discriminate; try reflexivity.
      * intros _. apply Hiff, Hv.
      * intros (x & Hx & _). congruence.
    + rewrite Hp. split; split; try discriminate; try reflexivity.
      * intros Hcount. apply Hiff in Hcount. congruence.
      * intros _. eauto.
Qed.

Lemma parse_file_size_outcomes_witness :
  size_fields (Str.strip "1.2.3KB") = Some ("1.2.3", Some "K"%char)
  /\ (2 <= count_class is_dot "1.2.3")%nat
  /\ parse_file_size "1.2.3KB" = Raised ValueError.
Proof.
  split; [reflexivity|]. split; [simpl; lia|].
  apply (proj2 (parse_file_size_outcomes "1.2.3KB") "1.2.3" (Some "K"%char)
           eq_refl).
  left. simpl. lia.
Defined.

End ParseOutcomes.

(** ** Whole numbers of bytes *)

Section WholeNumbers.

Lemma lstrip_no_space s : all_chars not_space s = true -> Str.lstrip s = s.
Proof.
  destruct s as [|c s]; simpl; [reflexivity|]. unfold not_space.
  intros H. apply andb_true_iff in H as [Hc _].
  apply negb_true_iff in Hc. rewrite Hc. reflexivity.
Qed.

Lemma rstrip_no_space s : all_chars not_space s = true -> Str.rstrip s = s.
Proof.
  induction s as [|c s IH]; simpl; [reflexivity|]. unfold not_space at 1.
  intros H. apply andb_true_iff in H as [Hc Hs].
  apply negb_true_iff in Hc. rewrite (IH Hs), Hc. destruct s; reflexivity.
Qed.

(** A text without whitespace is its own trimmed content. *)
Lemma strip_no_space s : all_chars not_space s = true -> Str.strip s = s.
Proof.
  intros H. unfold Str.strip. rewrite (lstrip_no_space s H).
  apply rstrip_no_space, H.
Qed.

Lemma digit_or_dot_not_space c :
  Re.digit_or_dot c = true -> not_space c = true.
Proof.
  intros H. destruct c as [[] [] [] [] [] [] [] []];
    try discriminate H; reflexivity.
Qed.

Lemma unit_letter_not_space c : Re.unit_letter c = true -> not_space c = true.
Proof.
  unfold Re.unit_letter. intros H.
  repeat (apply orb_true_iff in H as [H|H]);
    apply Ascii.eqb_eq in H; subst c; reflexivity.
Qed.

Lemma unit_string_not_space u :
  match u with Some c => Re.unit_letter c = true | None => True end ->
  all_chars not_space (unit_string u) = true.
Proof.
  destruct u as [c|]; [|reflexivity]. intros Hc. simpl.
  rewrite (unit_letter_not_space c Hc). reflexivity.
Qed.

Lemma unit_and_end_unit_string u :
  match u with Some c => Re.unit_letter c = true | None => True end ->
  unit_and_end (unit_string u) = Some u /\ stops Re.digit_or_dot (unit_string u).
Proof.
  destruct u as [c|]; [|intros _; split; [reflexivity|exact I]].
  intros Hc. simpl. rewrite Hc.
  split; [reflexivity|apply (unit_letter_cases c Hc)].
Qed.

(** A number of digits and dots, then a unit letter or none, is a token
    with these two fields. *)
Lemma size_fields_number_unit v u :
  v <> EmptyString -> all_chars Re.digit_or_dot v = true ->
  match u with Some c => Re.unit_letter c = true | None => True end ->
  Str.strip (v ++ unit_string u) = v ++ unit_string u
  /\ size_fields (v ++ unit_string u) = Some (v, u).
Proof.
  intros Hne Hv Hu. split.
  - apply strip_no_space. rewrite all_chars_append, unit_string_not_space
      by exact Hu.
    rewrite (all_chars_weaken _ _ v digit_or_dot_not_space Hv). reflexivity.
  - destruct (unit_and_end_unit_string u Hu) as [Hend Hstop].
    unfold size_fields. rewrite (span_exact _ v _ Hv Hstop), Hend.
    destruct v; [congruence|reflexivity].
Qed.

(** The digits of [n] read back as [n]. *)
Lemma read_digits_of_uint_acc d : forall acc n,
  Float.read_digits (Z.pos acc) n (NilEmpty.string_of_uint d)
  = (Z.pos (Pos.of_uint_acc d acc),
     (n + String.length (NilEmpty.string_of_uint d))%nat, EmptyString).
Proof.
  induction d as [|d IH|d IH|d IH|d IH|d IH|d IH|d IH|d IH|d IH|d IH];
    intros acc n;
    [simpl; rewrite Nat.add_0_r; reflexivity|..];
    cbn [NilEmpty.string_of_uint Float.read_digits Pos.of_uint_acc
         String.length];
    match goal with
    | |- context [Str.isdecimal ?c] => change (Str.isdecimal c) with true
    end;
    cbn iota;
    match goal with
    | |- context [Float.digit_value ?c] =>
        let v := eval vm_compute in (Float.digit_value c) in
        change (Float.digit_value c) with v
    end;
    match goal with
    | |- Float.read_digits ?a _ _ = _ =>
        match goal with
        | |- context [Pos.of_uint_acc d ?b] =>
            replace a with (Z.pos b) by lia
        end
    end;
    rewrite IH; do 2 f_equal; lia.
Qed.

Lemma all_digits_of_uint d :
  all_chars Str.isdecimal (NilEmpty.string_of_uint d) = true.
Proof. induction d; simpl; auto. Qed.

Lemma read_digits_of_uint d : forall n,
  Float.read_digits 0 n (NilEmpty.string_of_uint d)
  = (Z.of_N (Pos.of_uint d),
     (n + String.length (NilEmpty.string_of_uint d))%nat, EmptyString).
Proof.
  induction d as [|d IH|d IH|d IH|d IH|d IH|d IH|d IH|d IH|d IH|d IH];
    intros n;
    [simpl; rewrite Nat.add_0_r; reflexivity|..];
    cbn [NilEmpty.string_of_uint Float.read_digits Pos.of_uint String.length];
    match goal with
    | |- context [Str.isdecimal ?c] => change (Str.isdecimal c) with true
    end;
    cbn iota;
    match goal with
    | |- context [Float.digit_value ?c] =>
        let v := eval vm_compute in (Float.digit_value c) in
        change (Float.digit_value c) with v
    end;
    match goal with
    | |- Float.read_digits ?a _ _ = _ =>
        let v := eval vm_compute in a in change a with v
    end;
    first [rewrite IH | rewrite read_digits_of_uint_acc]; cbn [Z.of_N];
    do 2 f_equal; lia.
Qed.

Lemma decimal_digits n :
  decimal n <> EmptyString
  /\ all_chars Str.isdecimal (decimal n) = true
  /\ exists k, Float.read_digits 0 0 (decimal n) = (Z.of_N n, S k, EmptyString).
Proof.
  unfold decimal, NilZero.string_of_uint.
  pose proof (DecimalN.Unsigned.of_to n) as Hn. unfold N.of_uint in Hn.
  pose proof (read_digits_of_uint (N.to_uint n) 0) as Hread.
  pose proof (all_digits_of_uint (N.to_uint n)) as Hall.
  rewrite Hn in Hread.
  destruct (N.to_uint n) as [|d|d|d|d|d|d|d|d|d|d];
    [simpl in Hn; subst n; repeat split; [discriminate|exists O; reflexivity]
    |..];
    (repeat split; [discriminate|exact Hall|]);
    rewrite Hread; eexists; reflexivity.
Qed.

Lemma div_eucl_1 a : Z.div_eucl a 1 = (a, 0).
Proof.
  pose proof (Z_div_mod a 1 ltac:(lia)) as H.
  destruct (Z.div_eucl a 1) as [q r]. f_equal; lia.
Qed.

(** A whole number below 2^53 is a float: nothing is rounded. *)
Lemma of_decimal_whole n :
  0 < n < 2 ^ 53 ->
  exists m e,
    Float.of_decimal n 0 = S754_finite false m e
    /\ bounded 53 1024 m e = true /\ e <= 0
    /\ Z.pos m * 2 ^ (e + 1074) = n * 2 ^ 1074.
Proof.
  intros [Hpos Hlt].
  pose proof (of_decimal_valid n 0 ltac:(lia)) as [Hvalid _].
  set (d := Zdigits2 n).
  assert (Hd : 0 < d <= 53)
    by (split; [apply Zdigits2_pos; lia
               |apply Zdigits2_below; [split|]; lia]).
  assert (Heq : Float.of_decimal n 0
                = S754_finite false (Z.to_pos (n * 2 ^ (53 - d))) (d - 53)).
  { unfold Float.of_decimal. destruct n as [|p|p]; try lia.
    unfold SFdiv_core_binary, Float.prec, Float.emax.
    change (10 ^ Z.of_nat 0) with 1. change (Zdigits2 1) with 1. fold d.
    rewrite fexp64_eq.
    replace (Z.min (Z.max (d + 0 - (1 + 0) - 53) (-1074)) (0 - 0))
      with (d - 54) by lia.
    replace (0 - 0 - (d - 54)) with (54 - d) by lia.
    destruct (54 - d) as [|s|s] eqn:Hs; try lia. rewrite <- Hs.
    rewrite Z.shiftl_mul_pow2 by lia.
    rewrite div_eucl_1.
    change (new_location 1 0) with loc_Exact.
    replace (Z.pos p * 2 ^ (54 - d))
      with (Z.pos p * 2 ^ (53 - d) * 2 ^ 1)
      by (rewrite <- Z.mul_assoc, <- Z.pow_add_r by lia; do 2 f_equal; lia).
    replace (d - 54) with (d - 53 - 1) by lia.
    rewrite binary_round_aux_exact.
    - destruct (Z.leb_spec (d - 53) (1024 - 53)); [reflexivity|lia].
    - apply Z.mul_pos_pos; [lia|apply Z.pow_pos_nonneg; lia].
    - lia.
    - rewrite Zdigits2_mul_pow2 by lia. fold d. rewrite fexp64_eq. lia. }
  exists (Z.to_pos (n * 2 ^ (53 - d))), (d - 53).
  rewrite Heq in Hvalid. cbn [valid_nonneg] in Hvalid.
  split; [exact Heq|]. split; [exact Hvalid|]. split; [lia|].
  rewrite Z2Pos.id
    by (apply Z.mul_pos_pos; [lia|apply Z.pow_pos_nonneg; lia]).
  rewrite <- Z.mul_assoc, <- Z.pow_add_r by lia. do 2 f_equal. lia.
Qed.

(** What [parse_file_size] returns for the digits of a whole number and a
    unit letter or none. *)
Lemma parse_file_size_decimal n u :
  (n < 2 ^ 53)%N ->
  match u with Some c => Re.unit_letter c = true | None => True end ->
  Float.of_string (decimal n) = Returned (Float.of_decimal (Z.of_N n) 0)
  /\ is_finite (scale (Float.of_decimal (Z.of_N n) 0) (unit_group u)) = true
  /\ Qfloor (F2Q (Float.of_decimal (Z.of_N n) 0) * inject_Z (multiplier u))
     = Z.of_N n * multiplier u.
Proof.
  intros Hn Hu.
  destruct (decimal_digits n) as (_ & _ & k & Hread).
  split; [unfold Float.of_string; rewrite Hread; reflexivity|].
  destruct (N.eq_dec n 0%N) as [->|Hne].
  - split; [apply scale_small_finite; [exact I|exact I|exact Hu]|].
    cbn [Z.of_N Float.of_decimal F2Q].
    rewrite Qfloor_zero. reflexivity.
  - assert (Hz : 0 < Z.of_N n < 2 ^ 53)
      by (change (2 ^ 53) with (Z.of_N (2 ^ 53)); lia).
    destruct (of_decimal_whole (Z.of_N n) Hz) as (m & e & -> & Hb & He & Hm).
    split.
    + apply scale_small_finite; [exact Hb|cbn [exponent_below]; lia|exact Hu].
    + rewrite Qfloor_scaled by (eapply bounded_exponent, Hb).
      rewrite Hm, (Z.mul_comm (Z.of_N n)), <- Z.mul_assoc, Z.mul_comm.
      apply Z.div_mul. apply Z.pow_nonzero; lia.
Qed.

End WholeNumbers.

Section WholeNumberTokens.

Lemma decimal_size_chars n : all_chars Re.digit_or_dot (decimal n) = true.
Proof.
  destruct (decimal_digits n) as (_ & Hall & _).
  eapply all_chars_weaken, Hall. intros c Hc. unfold Re.digit_or_dot.
  rewrite Hc. reflexivity.
Qed.

Lemma parse_file_size_decimal_unit n u :
  (n < 2 ^ 53)%N ->
  match u with Some c => Re.unit_letter c = true | None => True end ->
  parse_file_size (decimal n ++ unit_string u)
  = Returned (Z.of_N n * multiplier u).
Proof.
  intros Hn Hu.
  destruct (decimal_digits n) as (Hne & _ & _).
  destruct (parse_file_size_decimal n u Hn Hu) as (Hfloat & Hfin & Hval).
  destruct (size_fields_number_unit (decimal n) u Hne (decimal_size_chars n)
              Hu) as [Hs Hf].
  rewrite <- Hs in Hf.
  rewrite (parse_file_size_value _ _ _ _ Hf Hfloat Hfin), Hval. reflexivity.
Qed.

End WholeNumberTokens.

(** X6: a size written as a whole number below 2^53, with a unit letter or
    none, is returned exactly: the number times the factor of the unit.
    No rounding of [float] shows below 2^53. *)
Theorem parse_file_size_whole_numbers n u :
  (n < 2 ^ 53)%N ->
  match u with Some c => Re.unit_letter c = true | None => True end ->
  parse_file_size (decimal n ++ unit_string u)
  = Returned (Z.of_N n * multiplier u).
Proof. apply parse_file_size_decimal_unit. Qed.

Lemma parse_file_size_whole_numbers_witness :
  parse_file_size "9007199254740991T"
  = Returned (9007199254740991 * 1024 ^ 4).
Proof.
  apply (parse_file_size_whole_numbers 9007199254740991 (Some "T"%char));
    reflexivity.
Defined.

(** ** Padding and the letter B *)

Section Padding.

Lemma lstrip_spaces ws : all_chars Str.isspace ws = true -> Str.lstrip ws = "".
Proof.
  induction ws as [|c ws IH]; simpl; [reflexivity|].
  intros H. apply andb_true_iff in H as [-> Hws]. exact (IH Hws).
Qed.

Lemma rstrip_spaces ws : all_chars Str.isspace ws = true -> Str.rstrip ws = "".
Proof.
  induction ws as [|c ws IH]; simpl; [reflexivity|].
  intros H. apply andb_true_iff in H as [-> Hws]. rewrite (IH Hws).
  reflexivity.
Qed.

Lemma lstrip_pad ws s :
  all_chars Str.isspace ws = true -> Str.lstrip (ws ++ s) = Str.lstrip s.
Proof.
  induction ws as [|c ws IH]; [intros _; apply f_equal, append_nil_l|].
  simpl. intros H. apply andb_true_iff in H as [Hc Hws].
  rewrite Hc. exact (IH Hws).
Qed.

Lemma rstrip_pad ws s :
  all_chars Str.isspace ws = true -> Str.rstrip (s ++ ws) = Str.rstrip s.
Proof.
  intros Hws. induction s as [|c s IH].
  - rewrite append_nil_l. apply rstrip_spaces, Hws.
  - rewrite append_cons. simpl. rewrite IH. reflexivity.
Qed.

(** Whitespace around a text does not show in its trimmed content. *)
Lemma strip_pad ws1 ws2 s :
  all_chars Str.isspace ws1 = true -> all_chars Str.isspace ws2 = true ->
  Str.strip (ws1 ++ s ++ ws2) = Str.strip s.
Proof.
  intros H1 H2. unfold Str.strip. rewrite (lstrip_pad ws1 _ H1).
  induction s as [|c s IH].
  - rewrite append_nil_l, (lstrip_spaces ws2 H2). reflexivity.
  - rewrite append_cons. simpl. destruct (Str.isspace c); [exact IH|].
    rewrite <- append_cons. apply rstrip_pad, H2.
Qed.

Lemma unit_and_end_B u :
  match u with Some c => Re.unit_letter c = true | None => True end ->
  unit_and_end (unit_string u ++ "B") = Some u
  /\ stops Re.digit_or_dot (unit_string u ++ "B").
Proof.
  destruct u as [c|]; [|intros _; split; reflexivity].
  intros Hc. change (unit_string (Some c) ++ "B") with (String c "B").
  simpl. rewrite Hc. split; [reflexivity|apply (unit_letter_cases c Hc)].
Qed.

Lemma size_fields_number_unit_B v u :
  v <> EmptyString -> all_chars Re.digit_or_dot v = true ->
  match u with Some c => Re.unit_letter c = true | None => True end ->
  Str.strip (v ++ unit_string u ++ "B") = v ++ unit_string u ++ "B"
  /\ size_fields (v ++ unit_string u ++ "B") = Some (v, u).
Proof.
  intros Hne Hv Hu. split.
  - apply strip_no_space.
    rewrite !all_chars_append, unit_string_not_space by exact Hu.
    rewrite (all_chars_weaken _ _ v digit_or_dot_not_space Hv). reflexivity.
  - destruct (unit_and_end_B u Hu) as [Hend Hstop].
    unfold size_fields. rewrite (span_exact _ v _ Hv Hstop), Hend.
    destruct v; [congruence|reflexivity].
Qed.

End Padding.

(** X7: whitespace around a size token never changes what
    [parse_file_size] does with it, and neither does a [B] after the number
    and the unit letter: the same value is returned, or the same exception
    raised. *)
Theorem parse_file_size_padding_and_B ws1 ws2 :
  all_chars Str.isspace ws1 = true -> all_chars Str.isspace ws2 = true ->
  (forall token,
      parse_file_size (ws1 ++ token ++ ws2) = parse_file_size token)
  /\ (forall v u,
        v <> EmptyString -> all_chars Re.digit_or_dot v = true ->
        match u with Some c => Re.unit_letter c = true | None => True end ->
        parse_file_size (ws1 ++ (v ++ unit_string u ++ "B") ++ ws2)
        = parse_file_size (v ++ unit_string u)).
Proof.
  intros H1 H2.
  assert (Hpad : forall token,
             parse_file_size (ws1 ++ token ++ ws2) = parse_file_size token)
    by (intros token; unfold parse_file_size;
        rewrite (strip_pad ws1 ws2 token H1 H2); reflexivity).
  split; [exact Hpad|]. intros v u Hne Hv Hu. rewrite Hpad.
  destruct (size_fields_number_unit_B v u Hne Hv Hu) as [Hs Hf].
  destruct (size_fields_number_unit v u Hne Hv Hu) as [Hs' Hf'].
  rewrite <- Hs in Hf. rewrite <- Hs' in Hf'.
  rewrite (parse_file_size_fields _ _ _ Hf), (parse_file_size_fields _ _ _ Hf').
  reflexivity.
Qed.

Lemma parse_file_size_padding_and_B_witness :
  parse_file_size "  1.5.2" = parse_file_size "1.5.2"
  /\ parse_file_size "  10MB" = parse_file_size "10M".
Proof.
  destruct (parse_file_size_padding_and_B "  " "" eq_refl eq_refl)
    as [Hpad HB].
  split.
  - exact (Hpad "1.5.2").
  - apply (HB "10" (Some "M"%char)); [discriminate|reflexivity|reflexivity].
Defined.

(** ** Listing lines *)

Section ListingLines.

(** A greedy repetition stops at the last place from which the rest of
    the pattern matches. *)
Lemma star_greedy_last {R} cls (k : nat -> string -> option R) c b r :
  forall a p,
  all_chars cls a = true -> cls c = true ->
  Re.star_greedy cls k (S (p + String.length a)) b = None ->
  k (p + String.length a)%nat (String c b) = Some r ->
  Re.star_greedy cls k p (a ++ String c b) = Some r.
Proof.
  induction a as [|x a IH]; intros p Ha Hc Hnone Hk.
  - rewrite append_nil_l. simpl in *. rewrite Nat.add_0_r in *.
    rewrite Hc, Hnone. exact Hk.
  - simpl in Ha. apply andb_true_iff in Ha as [Hx Ha].
    rewrite append_cons. simpl. rewrite Hx.
    simpl in Hnone, Hk. rewrite <- Nat.add_succ_comm in Hnone, Hk.
    rewrite (IH (S p) Ha Hc Hnone Hk). reflexivity.
Qed.

Lemma star_greedy_none {R} cls (first : ascii -> bool)
  (k : nat -> string -> option R) :
  (forall p, k p EmptyString = None) ->
  (forall p c s, first c = false -> k p (String c s) = None) ->
  forall s p,
  all_chars (fun c => negb (first c)) s = true ->
  Re.star_greedy cls k p s = None.
Proof.
  intros Hnil Hcons. induction s as [|c s IH]; intros p Hs; simpl.
  - apply Hnil.
  - simpl in Hs. apply andb_true_iff in Hs as [Hc Hs].
    apply negb_true_iff in Hc.
    rewrite (IH (S p) Hs), (Hcons p c s Hc). destruct (cls c); reflexivity.
Qed.

(** A greedy repetition takes a whole run when the rest of the pattern
    matches after it. *)
Lemma star_greedy_all {R} cls (k : nat -> string -> option R) b r :
  forall a p,
  all_chars cls a = true -> stops cls b ->
  k (p + String.length a)%nat b = Some r ->
  Re.star_greedy cls k p (a ++ b) = Some r.
Proof.
  induction a as [|x a IH]; intros p Ha Hb Hk.
  - rewrite append_nil_l. simpl in Hk. rewrite Nat.add_0_r in Hk.
    destruct b as [|c b]; simpl in *; [exact Hk|]. rewrite Hb. exact Hk.
  - simpl in Ha. apply andb_true_iff in Ha as [Hx Ha].
    rewrite append_cons. simpl. rewrite Hx.
    simpl in Hk. rewrite <- Nat.add_succ_comm in Hk.
    rewrite (IH (S p) Ha Hb Hk). reflexivity.
Qed.

(** A lazy repetition stops at the first place from which the rest of the
    pattern matches. *)
Lemma plus_lazy_first {R} cls (first : ascii -> bool)
  (k : nat -> string -> option R) c b r :
  (forall p x s, first x = false -> k p (String x s) = None) ->
  forall a p,
  a <> EmptyString -> all_chars cls a = true ->
  all_chars (fun x => negb (first x)) a = true ->
  k (p + String.length a)%nat (String c b) = Some r ->
  Re.plus_lazy cls k p (a ++ String c b) = Some r.
Proof.
  intros Hfirst. induction a as [|x a IH]; intros p Hne Ha Hno Hk;
    [congruence|].
  simpl in Ha, Hno. apply andb_true_iff in Ha as [Hx Ha].
  apply andb_true_iff in Hno as [_ Hno].
  rewrite append_cons. simpl. rewrite Hx.
  simpl in Hk. rewrite <- Nat.add_succ_comm in Hk.
  destruct a as [|y a].
  - rewrite append_nil_l. simpl in Hk. rewrite Nat.add_0_r in Hk.
    rewrite Hk. reflexivity.
  - rewrite append_cons. rewrite Hfirst.
    + rewrite <- append_cons. apply IH; [discriminate|assumption..].
    + simpl in Hno. apply andb_true_iff in Hno as [Hy _].
      apply negb_true_iff, Hy.
Qed.


Lemma take_all (v : string) : Str.take (String.length v) v = v.
Proof.
  rewrite <- (append_nil_r v) at 2. apply take_length_append.
Qed.

Lemma space_not_open c : Str.isspace c = true -> is_open c = false.
Proof.
  intros H. destruct c as [[] [] [] [] [] [] [] []];
    try discriminate H; reflexivity.
Qed.

Lemma no_open_after_bracket tok gap name :
  all_chars size_char tok = true -> all_chars gap_char gap = true ->
  all_chars name_char name = true ->
  all_chars (fun c => negb (is_open c)) (tok ++ String "]" (gap ++ name))
  = true.
Proof.
  intros Htok Hgap Hname. rewrite all_chars_append. cbn [all_chars].
  rewrite all_chars_append.
  rewrite (all_chars_weaken size_char _ tok), (all_chars_weaken gap_char _ gap),
    (all_chars_weaken name_char _ name); try assumption; try reflexivity.
  - unfold name_char. intros c Hc. apply andb_true_iff in Hc as [_ Hc].
    exact Hc.
  - unfold gap_char, Re.space. intros c Hc.
    apply andb_true_iff in Hc as [Hc _].
    rewrite (space_not_open c Hc). reflexivity.
  - unfold size_char. intros c Hc. apply andb_true_iff in Hc as [Hc _].
    apply andb_true_iff in Hc as [_ Hc]. exact Hc.
Qed.

Lemma line_re_match before tok gap name :
  all_chars Re.dot before = true ->
  tok <> EmptyString -> all_chars size_char tok = true ->
  gap <> EmptyString -> all_chars gap_char gap = true ->
  name <> EmptyString -> all_chars name_char name = true ->
  stops Str.isspace name ->
  Re.match_ line_re
    (before ++ String "[" (tok ++ String "]" (gap ++ name)))
  = Some [(2%nat, name); (1%nat, tok)].
Proof.
  intros Hbefore Htok_ne Htok Hgap_ne Hgap Hname_ne Hname Hfirst.
  unfold Re.match_, line_re. cbn [Re.run Re.pos Re.rest Re.caps].
  apply star_greedy_last; [exact Hbefore|reflexivity| |].
  - apply (star_greedy_none _ is_open); [reflexivity| |].
    + intros p c s Hc. unfold Re.lit. fold (is_open c). rewrite Hc.
      reflexivity.
    + apply no_open_after_bracket; assumption.
  - change (Re.lit "[" "[") with true. cbn iota.
    apply (plus_lazy_first _ is_close); [| exact Htok_ne | | |].
    + intros p x s Hx. unfold Re.lit. fold (is_close x). rewrite Hx.
      reflexivity.
    + eapply all_chars_weaken, Htok. unfold size_char. intros c Hc.
      apply andb_true_iff in Hc as [Hc _].
      apply andb_true_iff in Hc as [Hc _]. exact Hc.
    + eapply all_chars_weaken, Htok. unfold size_char. intros c Hc.
      apply andb_true_iff in Hc as [_ Hc]. exact Hc.
    + change (Re.lit "]" "]") with true. cbn iota.
      replace (S (0 + String.length before) + String.length tok
               - S (0 + String.length before))%nat
        with (String.length tok) by lia.
      rewrite take_length_append.
      destruct gap as [|g gap]; [congruence|].
      simpl in Hgap. apply andb_true_iff in Hgap as [Hg Hgap].
      unfold gap_char in Hg. apply andb_true_iff in Hg as [Hg _].
      rewrite append_cons. unfold Re.plus_greedy at 1. rewrite Hg.
      apply star_greedy_all.
      * eapply all_chars_weaken, Hgap. unfold gap_char. intros c Hc.
        apply andb_true_iff in Hc as [Hc _]. exact Hc.
      * exact Hfirst.
      * destruct name as [|n0 name]; [congruence|].
        simpl in Hname. apply andb_true_iff in Hname as [Hn0 Hname].
        unfold name_char in Hn0. apply andb_true_iff in Hn0 as [Hn0 _].
        unfold Re.plus_greedy. rewrite Hn0.
        rewrite <- (append_nil_r name) at 1.
        apply star_greedy_all; [|exact I|].
        -- eapply all_chars_weaken, Hname. unfold name_char. intros c Hc.
           apply andb_true_iff in Hc as [Hc _]. exact Hc.
        -- match goal with
           | |- context [Str.take ?n _] =>
               replace n with (String.length (String n0 name))
                 by (simpl; lia)
           end.
           rewrite take_all. reflexivity.
Qed.

Lemma lstrip_stops s : stops Str.isspace s -> Str.lstrip s = s.
Proof. destruct s as [|c s]; simpl; [reflexivity|]. intros ->. reflexivity. Qed.

Lemma append_not_nil (a b : string) : b <> EmptyString -> a ++ b <> EmptyString.
Proof.
  intros Hb. destruct a as [|c a]; [rewrite append_nil_l; exact Hb|].
  rewrite append_cons. discriminate.
Qed.

Lemma rstrip_append a b :
  b <> EmptyString -> Str.rstrip b = b -> Str.rstrip (a ++ b) = a ++ b.
Proof.
  intros Hne Hb. induction a as [|c a IH].
  - rewrite !append_nil_l. exact Hb.
  - rewrite append_cons. simpl. rewrite IH.
    pose proof (append_not_nil a b Hne) as H.
    destruct (a ++ b); [congruence|reflexivity].
Qed.

Lemma is_trimmed_spec s :
  is_trimmed s = true ->
  s <> EmptyString /\ stops Str.isspace s /\ Str.rstrip s = s.
Proof.
  destruct s as [|c s]; [discriminate|]. unfold is_trimmed.
  intros H. apply andb_true_iff in H as [Hc Hs].
  apply negb_true_iff in Hc. apply String.eqb_eq in Hs.
  split; [discriminate|]. split; [exact Hc|exact Hs].
Qed.

(** What is left of a listing line when it is trimmed, and its depth. *)
Lemma listing_line_strip indent before tok gap name :
  all_chars Str.isspace indent = true -> stops Str.isspace before ->
  is_trimmed name = true ->
  Str.strip (listing_line indent before tok gap name)
  = before ++ String "[" (tok ++ String "]" (gap ++ name))
  /\ Z.to_nat (indent_level (listing_line indent before tok gap name))
     = (String.length indent / 2)%nat.
Proof.
  intros Hind Hbefore Hname.
  destruct (is_trimmed_spec name Hname) as (Hne & _ & Hr).
  set (rest := before ++ String "[" (tok ++ String "]" (gap ++ name))).
  assert (Hl : Str.lstrip (listing_line indent before tok gap name) = rest).
  { unfold listing_line. rewrite lstrip_pad by exact Hind. fold rest.
    apply lstrip_stops. unfold rest.
    destruct before as [|b before]; [reflexivity|exact Hbefore]. }
  split.
  - unfold Str.strip. rewrite Hl. unfold rest.
    replace (before ++ String "[" (tok ++ String "]" (gap ++ name)))
      with ((before ++ String "[" (tok ++ String "]" gap)) ++ name).
    + apply rstrip_append; assumption.
    + rewrite append_assoc, append_cons, append_assoc, append_cons.
      reflexivity.
  - unfold indent_level. rewrite Hl. unfold listing_line. fold rest.
    rewrite length_append.
    replace (Z.of_nat (String.length indent + String.length rest)
             - Z.of_nat (String.length rest))
      with (Z.of_nat (String.length indent)) by lia.
    change 2 with (Z.of_nat 2). rewrite <- Nat2Z.inj_div, Nat2Z.id.
    reflexivity.
Qed.

(** One round of the loop on a listing line. *)
Lemma process_line_listing entries current_path indent before tok gap name :
  all_chars Str.isspace indent = true ->
  stops Str.isspace before -> all_chars Re.dot before = true ->
  tok <> EmptyString -> all_chars size_char tok = true ->
  gap <> EmptyString -> all_chars gap_char gap = true ->
  is_trimmed name = true -> all_chars name_char name = true ->
  process_line (entries, current_path)
    (listing_line indent before tok gap name)
  = bind (parse_file_size tok) (fun sz =>
      let stack :=
        (take (String.length indent / 2) current_path ++ [name])%list in
      Returned
        ((entries
          ++ [mkFileEntry (Str.join "/" stack) sz
                (Str.lower (Path.suffix name))])%list,
         stack)).
Proof.
  intros Hind Hb1 Hb2 Ht1 Ht2 Hg1 Hg2 Hn1 Hn2.
  destruct (is_trimmed_spec name Hn1) as (Hne & Hfirst & _).
  destruct (listing_line_strip indent before tok gap name Hind Hb1 Hn1)
    as [Hstrip Hdepth].
  rewrite <- Hdepth.
  apply (process_line_matched _ _ _ [(2%nat, name); (1%nat, tok)]);
    [|reflexivity..].
  rewrite Hstrip. apply line_re_match; assumption.
Qed.

End ListingLines.

(** X8: a line made of indentation, any text, a size token in square
    brackets, a gap of whitespace and a name gives one entry: its size is
    that of the token, its path the first [len(indent) // 2] segments of
    the path stack and then the name.  The text before the token plays no
    part, even when it has brackets of its own: the last bracketed token
    that a gap follows is the size. *)
Theorem listing_line_entry entries current_path indent before tok gap name :
  all_chars Str.isspace indent = true ->
  stops Str.isspace before -> all_chars Re.dot before = true ->
  tok <> EmptyString -> all_chars size_char tok = true ->
  gap <> EmptyString -> all_chars gap_char gap = true ->
  is_trimmed name = true -> all_chars name_char name = true ->
  process_line (entries, current_path)
    (listing_line indent before tok gap name)
  = bind (parse_file_size tok) (fun sz =>
      let stack :=
        (take (String.length indent / 2) current_path ++ [name])%list in
      Returned
        ((entries
          ++ [mkFileEntry (Str.join "/" stack) sz
                (Str.lower (Path.suffix name))])%list,
         stack)).
Proof. apply process_line_listing. Qed.

Lemma listing_line_entry_witness :
  process_line ([], ["root"; "old"]) "  [2020] final [ 1K]  b.TXT"
  = Returned ([mkFileEntry "root/b.TXT" 1024 ".txt"], ["root"; "b.TXT"]).
Proof.
  apply (listing_line_entry [] ["root"; "old"] "  " "[2020] final " " 1K"
           "  " "b.TXT");
    first [reflexivity | discriminate | exact I].
Defined.

(** ** Listings of trees *)

Section Trees.

Lemma tree_induction (P : tree -> Prop) :
  (forall name number unit children,
      Forall P children -> P (Node name number unit children)) ->
  forall t, P t.
Proof.
  intros H. fix IH 1. intros [name number unit children]. apply H.
  induction children as [|c cs IHcs]; constructor; [apply IH|exact IHcs].
Qed.

Lemma unlines_cons l ls :
  unlines (l :: ls) = l ++ String Str.LF (unlines ls).
Proof.
  unfold unlines. cbn [List.map String.concat].
  destruct (List.map (fun l0 => l0 ++ String Str.LF EmptyString) ls) eqn:Hm.
  - cbn [String.concat]. reflexivity.
  - rewrite append_nil_l, append_assoc, append_cons, append_nil_l.
    reflexivity.
Qed.

Lemma splitlines_line l rest :
  all_chars (fun c => negb (Str.is_linebreak c)) l = true ->
  Str.splitlines (l ++ String Str.LF rest) = l :: Str.splitlines rest.
Proof.
  induction l as [|c l IH]; intros Hl.
  - rewrite append_nil_l. cbn [Str.splitlines].
    change (Str.is_linebreak Str.LF) with true. cbn iota.
    change (Ascii.eqb Str.LF Str.CR) with false. cbn [andb].
    destruct rest; reflexivity.
  - simpl in Hl. apply andb_true_iff in Hl as [Hc Hl].
    apply negb_true_iff in Hc. rewrite append_cons.
    cbn [Str.splitlines]. rewrite Hc, (IH Hl). reflexivity.
Qed.

(** A text made of lines without line boundaries splits into these lines. *)
Lemma splitlines_unlines lines :
  Forall (fun l => all_chars (fun c => negb (Str.is_linebreak c)) l = true)
    lines ->
  Str.splitlines (unlines lines) = lines.
Proof.
  induction 1 as [|l ls Hl _ IH]; [reflexivity|].
  rewrite unlines_cons, (splitlines_line l _ Hl), IH. reflexivity.
Qed.

Lemma process_lines_app l1 : forall st l2,
  process_lines st (l1 ++ l2)%list
  = bind (process_lines st l1) (fun st' => process_lines st' l2).
Proof.
  induction l1 as [|l l1 IH]; intros st l2; [reflexivity|].
  cbn [app process_lines].
  destruct (process_line st l) as [st'|e]; cbn [bind]; [apply IH|reflexivity].
Qed.


Lemma all_chars_replicate cls n c :
  cls c = true -> all_chars cls (replicate_char n c) = true.
Proof. intros Hc. induction n; simpl; [|rewrite Hc, IHn]; reflexivity. Qed.

Lemma length_replicate_char n c : String.length (replicate_char n c) = n.
Proof. induction n; simpl; congruence. Qed.

Lemma unit_ok_spec u :
  unit_ok u = true ->
  match u with Some c => Re.unit_letter c = true | None => True end.
Proof. destruct u; [intros H; exact H|intros _; exact I]. Qed.

Lemma digit_or_dot_size_char c :
  Re.digit_or_dot c = true ->
  size_char c = true /\ Str.is_linebreak c = false.
Proof.
  intros H. destruct c as [[] [] [] [] [] [] [] []];
    try discriminate H; split; reflexivity.
Qed.

Lemma unit_letter_size_char c :
  Re.unit_letter c = true ->
  size_char c = true /\ Str.is_linebreak c = false.
Proof.
  unfold Re.unit_letter. intros H.
  repeat (apply orb_true_iff in H as [H|H]);
    apply Ascii.eqb_eq in H; subst c; split; reflexivity.
Qed.

(** The size token of a tree's line. *)
Lemma tree_token n u :
  unit_ok u = true ->
  decimal n ++ unit_string u <> EmptyString
  /\ all_chars size_char (decimal n ++ unit_string u) = true
  /\ all_chars (fun c => negb (Str.is_linebreak c))
       (decimal n ++ unit_string u) = true.
Proof.
  intros Hu. apply unit_ok_spec in Hu.
  destruct (decimal_digits n) as (Hne & _ & _).
  pose proof (decimal_size_chars n) as Hd.
  split; [|split].
  - destruct (decimal n); [congruence|]. rewrite append_cons. discriminate.
  - rewrite all_chars_append.
    rewrite (all_chars_weaken Re.digit_or_dot _ _
               (fun c H => proj1 (digit_or_dot_size_char c H)) Hd).
    destruct u as [c|]; [|reflexivity]. simpl.
    rewrite (proj1 (unit_letter_size_char c Hu)). reflexivity.
  - rewrite all_chars_append.
    rewrite (all_chars_weaken Re.digit_or_dot _ _
               (fun c H => proj2 (negb_true_iff _)
                             (proj2 (digit_or_dot_size_char c H))) Hd).
    destruct u as [c|]; [|reflexivity]. simpl.
    rewrite (proj2 (unit_letter_size_char c Hu)). reflexivity.
Qed.

Lemma listed_name_spec name :
  listed_name name = true ->
  is_trimmed name = true /\ all_chars name_char name = true
  /\ all_chars (fun c => negb (Str.is_linebreak c)) name = true.
Proof.
  unfold listed_name. intros H. apply andb_true_iff in H as [Ht Hc].
  split; [exact Ht|]. split; eapply all_chars_weaken, Hc; intros c H;
    apply andb_true_iff in H as [Hl Ho].
  - unfold name_char. rewrite Ho, andb_true_r.
    destruct c as [[] [] [] [] [] [] [] []]; try discriminate Hl; reflexivity.
  - exact Hl.
Qed.

(** The line of a tree's entry at [depth], processed with a path stack
    that has the directories above it. *)
Lemma process_line_node entries stack depth name number unit :
  listed_name name = true -> (number < 2 ^ 53)%N -> unit_ok unit = true ->
  process_line (entries, stack)
    (listing_line (replicate_char (2 * depth) " ") EmptyString
       (decimal number ++ unit_string unit) " " name)
  = Returned
      ((entries
        ++ [mkFileEntry (Str.join "/" (take depth stack ++ [name])%list)
              (Z.of_N number * multiplier unit)
              (Str.lower (Path.suffix name))])%list,
       (take depth stack ++ [name])%list).
Proof.
  intros Hname Hn Hu.
  destruct (listed_name_spec name Hname) as (Ht & Hc & _).
  destruct (tree_token number unit Hu) as (Hne & Hs & _).
  rewrite process_line_listing;
    [|apply all_chars_replicate; reflexivity|exact I|reflexivity|exact Hne
     |exact Hs|discriminate|reflexivity|exact Ht|exact Hc].
  rewrite (parse_file_size_decimal_unit number unit Hn (unit_ok_spec unit Hu)).
  cbn [bind]. rewrite length_replicate_char.
  replace (2 * depth / 2)%nat with depth
    by (rewrite Nat.mul_comm, Nat.div_mul; [reflexivity|discriminate]).
  reflexivity.
Qed.

Lemma listing_line_one_line depth name number unit :
  listed_name name = true -> unit_ok unit = true ->
  all_chars (fun c => negb (Str.is_linebreak c))
    (listing_line (replicate_char (2 * depth) " ") EmptyString
       (decimal number ++ unit_string unit) " " name) = true.
Proof.
  intros Hname Hu.
  destruct (listed_name_spec name Hname) as (_ & _ & Hl).
  destruct (tree_token number unit Hu) as (_ & _ & Hs).
  unfold listing_line. rewrite append_nil_l, all_chars_append.
  rewrite all_chars_replicate by reflexivity.
  cbn [all_chars andb]. rewrite all_chars_append, Hs.
  cbn [all_chars andb]. rewrite all_chars_append, Hl. reflexivity.
Qed.

(** The lines of the trees of a list, one tree after the other, when each
    tree is processed as the next lemma says. *)
Lemma process_forest ts :
  Forall (fun t => forall depth dirs entries stack,
            well_formed t = true -> length dirs = depth ->
            take depth stack = dirs ->
            exists stack',
              process_lines (entries, stack) (listing_lines depth t)
              = Returned ((entries ++ tree_entries dirs t)%list, stack')
              /\ take depth stack' = dirs) ts ->
  forall depth dirs entries stack,
  List.forallb well_formed ts = true -> length dirs = depth ->
  take depth stack = dirs ->
  exists stack',
    process_lines (entries, stack) (List.flat_map (listing_lines depth) ts)
    = Returned ((entries ++ List.flat_map (tree_entries dirs) ts)%list, stack')
    /\ take depth stack' = dirs.
Proof.
  induction 1 as [|t ts Ht _ IH]; intros depth dirs entries stack Hwf Hlen Hst.
  - exists stack. cbn [List.flat_map process_lines].
    rewrite app_nil_r. split; [reflexivity|exact Hst].
  - cbn [List.forallb] in Hwf. apply andb_true_iff in Hwf as [Hwt Hwts].
    destruct (Ht depth dirs entries stack Hwt Hlen Hst) as (st1 & Hrun1 & Hst1).
    destruct (IH depth dirs (entries ++ tree_entries dirs t)%list st1
                Hwts Hlen Hst1) as (st2 & Hrun2 & Hst2).
    exists st2. cbn [List.flat_map].
    rewrite process_lines_app, Hrun1. cbn [bind].
    rewrite Hrun2, <- app_assoc. split; [reflexivity|exact Hst2].
Qed.

(** The lines of a tree at [depth], processed with a path stack that has
    the directories above the tree: its entries are emitted, and the
    stack has these directories again. *)
Lemma process_tree t : forall depth dirs entries stack,
  well_formed t = true -> length dirs = depth -> take depth stack = dirs ->
  exists stack',
    process_lines (entries, stack) (listing_lines depth t)
    = Returned ((entries ++ tree_entries dirs t)%list, stack')
    /\ take depth stack' = dirs.
Proof.
  induction t as [name number unit children IH] using tree_induction.
  intros depth dirs entries stack Hwf Hlen Hst.
  cbn [well_formed] in Hwf. apply andb_true_iff in Hwf as [Hwf Hch].
  apply andb_true_iff in Hwf as [Hwf Hu].
  apply andb_true_iff in Hwf as [Hname Hn]. apply N.ltb_lt in Hn.
  cbn [listing_lines tree_entries process_lines].
  rewrite (process_line_node entries stack depth name number unit Hname Hn Hu).
  cbn [bind]. rewrite Hst.
  destruct (process_forest children IH (S depth) (dirs ++ [name])%list
              (entries
               ++ [mkFileEntry (Str.join "/" (dirs ++ [name])%list)
                     (Z.of_N number * multiplier unit)
                     (Str.lower (Path.suffix name))])%list
              (dirs ++ [name])%list Hch)
    as (stack' & Hrun & Hst').
  - rewrite length_app. simpl. lia.
  - apply take_ge. rewrite length_app. simpl. lia.
  - exists stack'. rewrite Hrun, <- app_assoc. split; [reflexivity|].
    replace depth with (Nat.min depth (S depth)) at 1 by lia.
    rewrite <- take_take, Hst', take_app_length'; [reflexivity|symmetry; exact Hlen].
Qed.

Lemma listing_lines_one_line t : forall depth,
  well_formed t = true ->
  Forall (fun l => all_chars (fun c => negb (Str.is_linebreak c)) l = true)
    (listing_lines depth t).
Proof.
  induction t as [name number unit children IH] using tree_induction.
  intros depth Hwf.
  cbn [well_formed] in Hwf. apply andb_true_iff in Hwf as [Hwf Hch].
  apply andb_true_iff in Hwf as [Hwf Hu].
  apply andb_true_iff in Hwf as [Hname _].
  cbn [listing_lines]. constructor.
  - apply listing_line_one_line; assumption.
  - induction IH as [|c cs Hc _ IHcs]; [constructor|].
    cbn [List.forallb] in Hch. apply andb_true_iff in Hch as [Hwc Hwcs].
    cbn [List.flat_map]. apply Forall_app. split; [apply Hc, Hwc|].
    apply IHcs, Hwcs.
Qed.

Lemma forest_one_line ts :
  List.forallb well_formed ts = true ->
  Forall (fun l => all_chars (fun c => negb (Str.is_linebreak c)) l = true)
    (List.flat_map (listing_lines 0) ts).
Proof.
  induction ts as [|t ts IH]; intros Hwf; [constructor|].
  cbn [List.forallb] in Hwf. apply andb_true_iff in Hwf as [Hwt Hwts].
  cbn [List.flat_map]. apply Forall_app.
  split; [apply listing_lines_one_line, Hwt|apply IH, Hwts].
Qed.

End Trees.

(** X9: the listing of directory trees, printed with two spaces for each
    level and sizes as whole numbers below 2^53 with a unit letter or none,
    is read back entry by entry: each entry has the path from the root of
    its tree, joined by [/], and its size in bytes, in the order of the
    lines. *)
Theorem listing_round_trip (forest : list tree) :
  List.forallb well_formed forest = true ->
  process_file_listing (unlines (List.flat_map (listing_lines 0) forest))
  = Returned (List.flat_map (tree_entries []) forest).
Proof.
  intros Hwf. unfold process_file_listing.
  rewrite splitlines_unlines by (apply forest_one_line, Hwf).
  destruct (process_forest forest
              (proj2 (Forall_forall _ _) (fun t _ => process_tree t))
              O [] [] [] Hwf eq_refl eq_refl) as (stack & Hrun & _).
  rewrite Hrun. reflexivity.
Qed.

Lemma listing_round_trip_witness :
  process_file_listing
    (unlines [ "[10M] root";
               "  [1M] a.txt";
               "  [2M] sub dir";
               "    [500K] b.log";
               "  [7] c";
               "[0] other" ])
  = Returned [ mkFileEntry "root" 10485760 "";
               mkFileEntry "root/a.txt" 1048576 ".txt";
               mkFileEntry "root/sub dir" 2097152 "";
               mkFileEntry "root/sub dir/b.log" 512000 ".log";
               mkFileEntry "root/c" 7 "";
               mkFileEntry "other" 0 "" ].
Proof.
  apply (listing_round_trip
           [ Node "root" 10 (Some "M"%char)
               [ Node "a.txt" 1 (Some "M"%char) [];
                 Node "sub dir" 2 (Some "M"%char)
                   [ Node "b.log" 500 (Some "K"%char) [] ];
                 Node "c" 7 None [] ];
             Node "other" 0 None [] ]).
  reflexivity.
Defined.

(** ** The fields of the entries *)

Section EntryFields.

Lemma rfind_none c s : Str.rfind c s < 0 -> contains c s = false.
Proof.
  induction s as [|a s IH]; simpl; [reflexivity|].
  destruct (Z.leb_spec 0 (Str.rfind c s)) as [Hi|Hi]; [lia|].
  destruct (Ascii.eqb a c); [lia|]. intros _. apply IH, Hi.
Qed.

(** [rfind] finds the last occurrence. *)
Lemma rfind_last c s :
  0 <= Str.rfind c s ->
  exists pre post,
    s = pre ++ String c post
    /\ Z.of_nat (String.length pre) = Str.rfind c s
    /\ Str.drop (Z.to_nat (Str.rfind c s)) s = String c post
    /\ contains c post = false.
Proof.
  induction s as [|a s IH]; simpl; [lia|].
  destruct (Z.leb_spec 0 (Str.rfind c s)) as [Hi|Hi].
  - intros _. destruct (IH Hi) as (pre & post & Hs & Hlen & Hdrop & Hlast).
    exists (String a pre), post.
    split; [rewrite Hs at 1; reflexivity|]. split; [simpl; lia|].
    split; [|exact Hlast].
    replace (Z.to_nat (Str.rfind c s + 1)) with (S (Z.to_nat (Str.rfind c s)))
      by lia.
    exact Hdrop.
  - destruct (Ascii.eqb_spec a c) as [->|Hne]; [|lia].
    intros _. exists EmptyString, s. simpl.
    repeat split; try reflexivity. apply rfind_none, Hi.
Qed.

Lemma contains_append c a b :
  contains c (a ++ b) = contains c a || contains c b.
Proof.
  induction a as [|x a IH]; [rewrite append_nil_l; reflexivity|].
  rewrite append_cons. simpl. rewrite IH, orb_assoc. reflexivity.
Qed.

Lemma split_no_sep sep s x :
  In x (Str.split sep s) -> contains sep x = false.
Proof.
  revert x. induction s as [|c s IH]; intros x; simpl.
  - intros [<-|[]]. reflexivity.
  - destruct (Ascii.eqb c sep) eqn:Hc.
    + intros [<-|Hx]; [reflexivity|apply IH, Hx].
    + destruct (Str.split sep s) as [|p ps] eqn:Hs.
      * intros [<-|[]]. simpl. rewrite Hc. reflexivity.
      * intros [<-|Hx].
        -- simpl. rewrite Hc. apply IH. left. reflexivity.
        -- apply IH. right. exact Hx.
Qed.

Lemma name_no_slash p : contains "/" (Path.name p) = false.
Proof.
  unfold Path.name.
  destruct (last_default_or_in (Path.parts p) EmptyString) as [->|H];
    [reflexivity|].
  apply list_elem_of_In in H. unfold Path.parts in H.
  apply list_elem_of_filter in H as [_ H]. apply list_elem_of_In in H.
  eapply split_no_sep, H.
Qed.

Lemma suffix_shape p : extension_shape (Path.suffix p).
Proof.
  unfold Path.suffix. set (n := Path.name p).
  destruct (Z.ltb_spec 0 (Str.rfind "." n)) as [Hlo|]; [|left; reflexivity].
  destruct (Z.ltb_spec (Str.rfind "." n) (Z.of_nat (String.length n) - 1))
    as [Hhi|]; [|left; reflexivity].
  right. cbn [andb].
  destruct (rfind_last "." n) as (pre & post & Hn & Hlen & Hdrop & Hlast);
    [lia|].
  exists post. rewrite Hdrop. split; [reflexivity|].
  assert (Hlenn : String.length n
                  = (String.length pre + S (String.length post))%nat)
    by (rewrite Hn at 1; rewrite length_append; reflexivity).
  split; [destruct post; [simpl in Hlenn; lia|discriminate]|].
  split; [exact Hlast|].
  pose proof (name_no_slash p) as Hslash. fold n in Hslash.
  rewrite Hn, contains_append in Hslash.
  apply orb_false_iff in Hslash as [_ Hslash]. simpl in Hslash.
  exact Hslash.
Qed.

Lemma lower_char_idem c : Str.lower_char (Str.lower_char c) = Str.lower_char c.
Proof. destruct c as [[] [] [] [] [] [] [] []]; reflexivity. Qed.

Lemma lower_idem s : Str.lower (Str.lower s) = Str.lower s.
Proof.
  induction s as [|c s IH]; simpl; [reflexivity|].
  rewrite lower_char_idem, IH. reflexivity.
Qed.

Lemma lower_char_dot_slash c :
  Ascii.eqb (Str.lower_char c) "." = Ascii.eqb c "."
  /\ Ascii.eqb (Str.lower_char c) "/" = Ascii.eqb c "/".
Proof. destruct c as [[] [] [] [] [] [] [] []]; split; reflexivity. Qed.

Lemma contains_lower s :
  contains "." (Str.lower s) = contains "." s
  /\ contains "/" (Str.lower s) = contains "/" s.
Proof.
  induction s as [|c s [IH1 IH2]]; simpl; [split; reflexivity|].
  destruct (lower_char_dot_slash c) as [-> ->]. rewrite IH1, IH2.
  split; reflexivity.
Qed.

(** The extension of an entry, [Path(name).suffix.lower()]. *)
Lemma lower_suffix_shape name :
  extension_shape (Str.lower (Path.suffix name))
  /\ Str.lower (Str.lower (Path.suffix name)) = Str.lower (Path.suffix name).
Proof.
  split; [|apply lower_idem].
  destruct (suffix_shape name) as [->|(rest & -> & Hne & Hdot & Hslash)];
    [left; reflexivity|right].
  exists (Str.lower rest). destruct (contains_lower rest) as [-> ->].
  split; [reflexivity|]. split; [destruct rest; [congruence|discriminate]|].
  split; assumption.
Qed.

Lemma emitted_fields e line :
  emitted_from e line ->
  0 <= size e /\ extension_shape (extension e)
  /\ Str.lower (extension e) = extension e.
Proof.
  intros (m & size_str & name & _ & _ & _ & Hsize & -> & _).
  split; [eapply parse_file_size_nonneg, Hsize|apply lower_suffix_shape].
Qed.

Lemma emitted_all_fields entries lines :
  Forall2 emitted_from entries lines ->
  Forall (fun e => 0 <= size e /\ extension_shape (extension e)
                   /\ Str.lower (extension e) = extension e) entries.
Proof.
  induction 1 as [|e line entries lines He _ IH]; constructor;
    [eapply emitted_fields, He|exact IH].
Qed.

Lemma listing_entries content entries :
  process_file_listing content = Returned entries ->
  Forall2 emitted_from entries
    (List.filter line_matches (Str.splitlines content)).
Proof.
  unfold process_file_listing. intros Hrun.
  destruct (process_lines ([], []) (Str.splitlines content))
    as [st|err] eqn:Hlines; simpl in Hrun; [|discriminate].
  injection Hrun as <-.
  destruct (process_lines_emits _ _ _ _ Hlines) as (new & Hnew & Hall).
  simpl in Hnew. rewrite Hnew. exact Hall.
Qed.

Lemma sum_sizes_nonneg entries :
  Forall (fun e => 0 <= size e) entries -> 0 <= sum_sizes entries.
Proof.
  induction 1 as [|e entries He _ IH]; [unfold sum_sizes; simpl; lia|].
  rewrite sum_sizes_cons. lia.
Qed.

Lemma count_le_length {A} (p : A -> bool) l :
  count p l <= Z.of_nat (length l).
Proof. unfold count. pose proof (filter_length_le p l). lia. Qed.

Lemma count_positive {A} (p : A -> bool) l :
  count p l <> 0 -> exists x, In x l /\ p x = true.
Proof.
  unfold count. intros H.
  destruct (List.filter p l) as [|x xs] eqn:Hf; [simpl in H; lia|].
  exists x. apply filter_In. rewrite Hf. left. reflexivity.
Qed.

(** When a round of the loop raises. *)
Lemma process_line_raises st line e :
  process_line st line = Raised e
  <-> exists tok, size_token line = Some tok /\ parse_file_size tok = Raised e.
Proof.
  destruct st as [entries current_path]. unfold size_token.
  destruct (Re.match_ line_re (Str.strip line)) as [m|] eqn:Hm.
  - destruct (line_re_groups _ _ Hm) as (size_str & name & H1 & H2).
    rewrite (process_line_matched _ _ _ _ _ _ Hm H1 H2), H1.
    destruct (parse_file_size size_str) as [sz|err] eqn:Hsz; cbn [bind].
    + split; [discriminate|]. intros (tok & [= <-] & Htok). congruence.
    + split.
      * intros [= <-]. exists size_str. auto.
      * intros (tok & [= <-] & Htok). rewrite Hsz in Htok.
        injection Htok as ->. reflexivity.
  - split; [|intros (tok & Htok & _); discriminate].
    destruct (String.eqb_spec (Str.strip line) EmptyString) as [He|Hne].
    + rewrite process_line_blank by exact He. discriminate.
    + rewrite process_line_unmatched by assumption. discriminate.
Qed.

Lemma process_lines_raises lines e : forall st,
  process_lines st lines = Raised e
  <-> exists before line after tok,
        lines = (before ++ line :: after)%list
        /\ (forall l t, In l before -> size_token l = Some t ->
                        exists sz, parse_file_size t = Returned sz)
        /\ size_token line = Some tok
        /\ parse_file_size tok = Raised e.
Proof.
  induction lines as [|line lines IH]; intros st; cbn [process_lines].
  - split; [discriminate|]. intros (before & l & after & tok & H & _).
    destruct before; discriminate.
  - destruct (process_line st line) as [st1|err] eqn:Hstep; cbn [bind].
    + rewrite IH. split.
      * intros (before & l & after & tok & -> & Hbefore & Htok & Hraise).
        exists (line :: before), l, after, tok.
        split; [reflexivity|]. split; [|auto].
        intros l0 t [<-|Hin] Ht; [|eapply Hbefore; eassumption].
        destruct (parse_file_size t) as [sz|err] eqn:Hsz; [eauto|].
        assert (Hr : process_line st line = Raised err)
          by (apply process_line_raises; eauto).
        congruence.
      * intros (before & l & after & tok & Heq & Hbefore & Htok & Hraise).
        destruct before as [|b before]; simpl in Heq; injection Heq as <- ->.
        -- assert (Hr : process_line st line = Raised e)
             by (apply process_line_raises; eauto).
           congruence.
        -- exists before, l, after, tok. split; [reflexivity|].
           split; [|auto]. intros l0 t Hin. apply Hbefore. right. exact Hin.
    + split.
      * intros [= <-]. apply process_line_raises in Hstep as (tok & Htok & Hr).
        exists [], line, lines, tok. split; [reflexivity|].
        split; [intros l t []|auto].
      * intros (before & l & after & tok & Heq & Hbefore & Htok & Hraise).
        destruct before as [|b before]; simpl in Heq; injection Heq as <- ->.
        -- assert (Hr : process_line st line = Raised e)
             by (apply process_line_raises; eauto).
           congruence.
        -- apply process_line_raises in Hstep as (t & Ht & Hr).
           destruct (Hbefore line t (or_introl eq_refl) Ht) as (sz & Hsz).
           congruence.
Qed.

End EntryFields.

(** X10: every entry of a listing has a size that is not negative and an
    extension that is empty or a dot followed by at least one character,
    with no further dot and no slash, and in lower case. *)
Theorem entries_have_sizes_and_extensions content entries :
  process_file_listing content = Returned entries ->
  Forall (fun e => 0 <= size e /\ extension_shape (extension e)
                   /\ Str.lower (extension e) = extension e) entries.
Proof.
  intros Hrun. eapply emitted_all_fields, listing_entries, Hrun.
Qed.

Lemma entries_have_sizes_and_extensions_witness :
  Forall (fun e => 0 <= size e /\ extension_shape (extension e)
                   /\ Str.lower (extension e) = extension e)
    example_entries.
Proof.
  apply (entries_have_sizes_and_extensions example_listing).
  vm_compute. reflexivity.
Defined.

(** X11: the report of [analyze_patterns] on the entries that
    [process_file_listing] returns for a listing: [total_files] is the number of lines that match the pattern,
    [total_size] is not negative, and every key of [extension_stats] is a
    dot followed by at least one character, in lower case, counted at
    least once and at most [total_files] times. *)
Theorem report_of_listing content entries :
  process_file_listing content = Returned entries ->
  total_files (analyze_patterns entries)
  = count line_matches (Str.splitlines content)
  /\ 0 <= total_size (analyze_patterns entries)
  /\ forall ext n,
       extension_stats (analyze_patterns entries) !! ext = Some n ->
       (exists rest, ext = String "." rest /\ rest <> EmptyString)
       /\ Str.lower ext = ext
       /\ 1 <= n <= total_files (analyze_patterns entries).
Proof.
  intros Hrun. pose proof (listing_entries content entries Hrun) as Hall.
  pose proof (emitted_all_fields _ _ Hall) as Hfields.
  rewrite analyze_patterns_fields.
  cbn [total_files total_size extension_stats].
  split; [|split].
  - unfold count. f_equal. eapply Forall2_length, Hall.
  - apply sum_sizes_nonneg. eapply Forall_impl; [exact Hfields|].
    intros e He. apply He.
  - intros ext n.
    rewrite <- extension_counts_are_extension_stats_aux, extension_stats_key.
    destruct (String.eqb_spec ext EmptyString) as [->|Hne];
      [discriminate|]. cbn [orb].
    destruct (Z.eqb_spec (count (has_this_extension ext) entries) 0)
      as [|Hpos]; [discriminate|]. intros [= <-].
    destruct (count_positive _ _ Hpos) as (e & Hin & He).
    apply String.eqb_eq in He. rewrite Forall_forall in Hfields.
    apply list_elem_of_In in Hin.
    destruct (Hfields e Hin) as (_ & Hshape & Hlower). rewrite He in *.
    split; [|split; [exact Hlower|]].
    + destruct Hshape as [|(rest & -> & Hrest & _)]; [contradiction|].
      exists rest. auto.
    + pose proof (count_nonneg (has_this_extension ext) entries).
      pose proof (count_le_length (has_this_extension ext) entries). lia.
Qed.

Lemma report_of_listing_witness :
  total_files (analyze_patterns example_entries)
  = count line_matches (Str.splitlines example_listing)
  /\ 0 <= total_size (analyze_patterns example_entries)
  /\ forall ext n,
       extension_stats (analyze_patterns example_entries) !! ext = Some n ->
       (exists rest, ext = String "." rest /\ rest <> EmptyString)
       /\ Str.lower ext = ext
       /\ 1 <= n <= total_files (analyze_patterns example_entries).
Proof.
  apply (report_of_listing example_listing). vm_compute. reflexivity.
Defined.

(** X12: [process_file_listing] raises exactly when the size token of
    some matching line is one on which [parse_file_size] raises; the
    exception is that of the first such line, a [ValueError] or an
    [OverflowError], and no entry of any line is returned. *)
Theorem process_file_listing_raises content e :
  (process_file_listing content = Raised e
   <-> exists before line after tok,
         Str.splitlines content = (before ++ line :: after)%list
         /\ (forall l t, In l before -> size_token l = Some t ->
                         exists sz, parse_file_size t = Returned sz)
         /\ size_token line = Some tok
         /\ parse_file_size tok = Raised e)
  /\ (process_file_listing content = Raised e ->
      e = ValueError \/ e = OverflowError).
Proof.
  assert (Hiff : process_file_listing content = Raised e
                 <-> process_lines ([], []) (Str.splitlines content)
                     = Raised e).
  { unfold process_file_listing.
    destruct (process_lines ([], []) (Str.splitlines content)); cbn [bind];
      split; congruence. }
  split.
  - rewrite Hiff. apply process_lines_raises.
  - intros Hrun. apply Hiff, process_lines_raises in Hrun
      as (_ & _ & _ & tok & _ & _ & _ & Hraise).
    eapply parse_file_size_exceptions, Hraise.
Qed.

Lemma process_file_listing_raises_witness :
  process_file_listing (unlines ["[1K] a"; "[1.2.3] x"; "[2K] b"])
  = Raised ValueError.
Proof.
  apply (proj2 (proj1 (process_file_listing_raises _ ValueError))).
  exists ["[1K] a"], "[1.2.3] x", ["[2K] b"], "1.2.3".
  split; [reflexivity|]. split; [|split; reflexivity].
  intros l t [<-|[]] Ht. vm_compute in Ht. injection Ht as <-.
  exists 1024. reflexivity.
Defined.

(** ** Whitespace in a listing *)

Section Whitespace.

Lemma strip_trailing line ws :
  all_chars Str.isspace ws = true -> Str.strip (line ++ ws) = Str.strip line.
Proof.
  intros Hws. rewrite <- (append_nil_l (line ++ ws)).
  apply (strip_pad EmptyString ws line eq_refl Hws).
Qed.

Lemma lstrip_append line ws :
  Str.lstrip line <> EmptyString ->
  Str.lstrip (line ++ ws) = Str.lstrip line ++ ws.
Proof.
  induction line as [|c line IH]; simpl; [congruence|].
  destruct (Str.isspace c); [exact IH|reflexivity].
Qed.

Lemma indent_level_trailing line ws :
  Str.strip line <> EmptyString ->
  indent_level (line ++ ws) = indent_level line.
Proof.
  intros Hne. unfold indent_level. rewrite lstrip_append.
  - rewrite !length_append. f_equal. lia.
  - intros He. unfold Str.strip in Hne. rewrite He in Hne. apply Hne.
    reflexivity.
Qed.

Lemma process_line_trailing st line ws :
  all_chars Str.isspace ws = true ->
  process_line st (line ++ ws) = process_line st line.
Proof.
  intros Hws. destruct st as [entries current_path]. unfold process_line.
  rewrite (strip_trailing line ws Hws).
  destruct (Str.strip line) as [|c s] eqn:Hs; [reflexivity|].
  rewrite indent_level_trailing by (rewrite Hs; discriminate). reflexivity.
Qed.

Lemma process_lines_skip_blank lines : forall st,
  process_lines st (List.filter (fun l => negb (is_blank l)) lines)
  = process_lines st lines.
Proof.
  induction lines as [|line lines IH]; intros st; [reflexivity|].
  cbn [List.filter process_lines]. unfold is_blank at 1.
  destruct (String.eqb_spec (Str.strip line) EmptyString) as [He|Hne];
    cbn [negb].
  - destruct st as [entries current_path].
    rewrite (process_line_blank _ _ _ He). cbn [bind]. apply IH.
  - cbn [process_lines]. destruct (process_line st line); cbn [bind];
      [apply IH|reflexivity].
Qed.

End Whitespace.

(** X13: whitespace that a listing can do without is ignored: lines that
    are empty or of whitespace only change neither the entries nor the
    path stack, and neither does whitespace at the end of a line. *)
Theorem whitespace_is_ignored st :
  (forall lines,
      process_lines st (List.filter (fun l => negb (is_blank l)) lines)
      = process_lines st lines)
  /\ (forall line ws,
        all_chars Str.isspace ws = true ->
        process_line st (line ++ ws) = process_line st line).
Proof.
  split; [intros lines; apply process_lines_skip_blank|].
  intros line ws. apply process_line_trailing.
Qed.

Lemma whitespace_is_ignored_witness :
  process_line ([], ["root"]) ("  [1K] a.txt" ++ "  ")
  = process_line ([], ["root"]) "  [1K] a.txt".
Proof.
  apply (proj2 (whitespace_is_ignored ([], ["root"])) "  [1K] a.txt" "  ").
  reflexivity.
Defined.
